(** * dnspod-http-dns-libev: the UDP-to-HTTP DNS proxy core

    A shallow embedding of [src/main.c] and [src/options.c], and the
    properties of the request pipeline, the upstream URL, the body scan and
    the start-up sequence that follow from them.

    Conventions of the embedding.
    - A C string is the list of its characters before the terminating NUL.
    - [unsigned int] values are integers in [Z]; every arithmetic step the
      source performs on them is reduced modulo [2^32] with [u32].
    - A pointer that can be [NULL] is an [option]; a request context on the
      heap is named by its allocation number.
    - Calls into the collaborating modules (the UDP server, the HTTP client,
      libev, the logger) are recorded, in order, in the trace of the world.
    - [DLOG], [ILOG] and [ELOG] only write to the log, and [printf] only to
      the standard output: they are left out. [FLOG] ends the process.
    - Memory allocation ([calloc], [curl_escape]) is taken to succeed. *)

From Stdlib Require Import ZArith Ascii String List Lia.
From stdpp Require Import base option list gmap.

Local Open Scope Z_scope.

(** ** C strings and the libc / libcurl functions the sources call *)

Module CStr.

(** A string literal of the source. *)
Definition lit (s : string) : list ascii := list_ascii_of_string s.

Definition NUL : ascii := ascii_of_nat 0.

(** [strlen] on a well-formed C string. *)
Definition strlen (s : list ascii) : Z := Z.of_nat (length s).

(** [strlen] on a [char] array that may lack its terminator: the number of
    characters before the first NUL, or [None] when the scan leaves the
    array. *)
Fixpoint strlen_array (a : list ascii) : option Z :=
  match a with
  | [] => None
  | c :: a' =>
      if Ascii.eqb c NUL then Some 0
      else match strlen_array a' with
           | Some n => Some (n + 1)
           | None => None
           end
  end.

(** The characters of an array up to its first NUL. *)
Fixpoint until_nul (a : list ascii) : list ascii :=
  match a with
  | [] => []
  | c :: a' => if Ascii.eqb c NUL then [] else c :: until_nul a'
  end.

(** [snprintf(dst, size, "%s...", ...)]: of the formatted text, at most
    [size - 1] characters are stored, followed by a NUL. *)
Definition snprintf (size : Z) (formatted : list ascii) : list ascii :=
  take (Z.to_nat (size - 1)) formatted.

(** libcurl keeps the RFC 3986 unreserved characters
    (letters, digits, [-], [.], [_], [~]) as they are. *)
Definition isunreserved (c : ascii) : bool :=
  let n := nat_of_ascii c in
  ((48 <=? n) && (n <=? 57) || (65 <=? n) && (n <=? 90)
   || (97 <=? n) && (n <=? 122)
   || (n =? 45) || (n =? 46) || (n =? 95) || (n =? 126))%nat.

Definition hex_digit (n : nat) : ascii :=
  nth n (lit "0123456789ABCDEF") "0"%char.

(** Every other character becomes [%XX], two upper-case hex digits. *)
Definition escape_char (c : ascii) : list ascii :=
  if isunreserved c then [c]
  else let n := nat_of_ascii c in
       ["%"%char; hex_digit (n / 16); hex_digit (n mod 16)].

(** [curl_escape(s, strlen(s))]. *)
Fixpoint curl_escape (s : list ascii) : list ascii :=
  match s with
  | [] => []
  | c :: s' => escape_char c ++ curl_escape s'
  end.

End CStr.
Import CStr.

(** ** Outcomes of running C code against the world *)

(** Why an execution left the defined behaviour of C. *)
Inductive undefined_behaviour :=
  | HeapOverflow      (* write past the end of a heap block *)
  | ArrayOverread     (* [strlen] runs off a [char] array *)
  | UseAfterFree      (* access to a block that is not live *)
  | InvalidFree.      (* [free] of a block that is not live *)

Inductive result (A : Type) :=
  | Ret (a : A)                          (* the function returns *)
  | Exit (code : Z)                      (* [exit], also through [FLOG] *)
  | Undef (why : undefined_behaviour)
  | OutOfFuel.                           (* a loop of the model ran dry *)
Arguments Ret {A} a.
Arguments Exit {A} code.
Arguments Undef {A} why.
Arguments OutOfFuel {A}.

(** ** main.c: types *)

(** [struct sockaddr_in], as far as the proxy looks at it: not at all. *)
Record sockaddr_in := { sin_addr : Z; sin_port : Z }.

(** [app_state_t]. [https_client] and [dns_server_t *] are handles. *)
Record app_state_t := {
  https_client : nat;
  resolv : option (list (list ascii));    (* [struct curl_slist *] *)
  extra_request_args : list ascii
}.

(** [request_t]. [name] is the whole 254-byte array. *)
Record request_t := {
  tx_id : Z;
  raddr : sockaddr_in;
  dns_server : nat;
  name : list ascii
}.

Definition NAME_SIZE : Z := 254.

Inductive signal := SIGPIPE | SIGINT.

(** Calls that leave [main.c], in the order they are made. *)
Inductive event :=
  | E_options_show_usage
  | E_logging_init (fd level : Z)
  | E_curl_global_init
  | E_https_client_init
  | E_dns_server_init (addr : list ascii) (port : Z)
  | E_setgid (g : Z)
  | E_setuid (u : Z)
  | E_daemon
  | E_ev_signal_start (s : signal)
  | E_logging_flush_init
  | E_dns_poller_init       (* the start of the bootstrap poller *)
  | E_ev_run
  | E_calloc_request (p : nat)
  | E_https_client_fetch (url : list ascii)
      (resolv : option (list (list ascii))) (data : nat)
  | E_dns_server_respond (server : nat) (raddr : sockaddr_in)
      (payload : list Z)
  | E_free_request (p : nat).

(** The world: what has been called so far, and the live request contexts. *)
Record world := {
  trace : list event;
  heap : gmap nat request_t;
  next_request : nat
}.

Definition world0 : world :=
  {| trace := []; heap := ∅; next_request := 0%nat |}.

(** A command: runs in a world, leaves a world and a result. *)
Definition M (A : Type) : Type := world → world * result A.

Definition ret {A} (a : A) : M A := λ w, (w, Ret a).

Definition bind {A B} (m : M A) (k : A → M B) : M B :=
  λ w, match m w with
       | (w', Ret a) => k a w'
       | (w', Exit c) => (w', Exit c)
       | (w', Undef u) => (w', Undef u)
       | (w', OutOfFuel) => (w', OutOfFuel)
       end.

Declare Scope cmd_scope.
Delimit Scope cmd_scope with cmd.
Notation "x <- m ;; k" := (bind m (λ x, k))
  (at level 100, m at next level, right associativity) : cmd_scope.
Notation "m ;;; k" := (bind m (λ _, k))
  (at level 100, right associativity) : cmd_scope.
Local Open Scope cmd_scope.

Definition emit (e : event) : M unit :=
  λ w, ({| trace := trace w ++ [e]; heap := heap w;
           next_request := next_request w |}, Ret tt).

(** A step that does not touch the world. *)
Definition lift {A} (r : result A) : M A := λ w, (w, r).

(** Modelled from the spec: the macro [FLOG] of [logging.h], which is not
    among the sources. What is logged with it is fatal: the process ends
    instead of going on. The exit status is not given; 1 stands for
    failure. *)
Definition FLOG {A} : M A := lift (Exit 1).

(** [calloc(1, sizeof(request_t))] followed by the field assignments.
    Allocation is taken to succeed; when it does not, [FLOG] ends the
    process before the context is touched. *)
Definition calloc_request (r : request_t) : M nat :=
  λ w, let p := next_request w in
       ({| trace := trace w ++ [E_calloc_request p];
           heap := <[p := r]> (heap w);
           next_request := S p |}, Ret p).

Definition load_request (p : nat) : M request_t :=
  λ w, match heap w !! p with
       | Some r => (w, Ret r)
       | None => (w, Undef UseAfterFree)
       end.

(** [free(req)]. *)
Definition free_request (p : nat) : M unit :=
  λ w, match heap w !! p with
       | Some _ => ({| trace := trace w ++ [E_free_request p];
                       heap := delete p (heap w);
                       next_request := next_request w |}, Ret tt)
       | None => (w, Undef InvalidFree)
       end.

Definition store_request (p : nat) (r : request_t) : M unit :=
  λ w, match heap w !! p with
       | Some _ => ({| trace := trace w; heap := <[p := r]> (heap w);
                       next_request := next_request w |}, Ret tt)
       | None => (w, Undef UseAfterFree)
       end.

(** ** options.c *)

(** [struct Options]. [options.h] is not among the sources; the integer
    fields are kept as the values the code assigns to them. *)
Record Options := {
  listen_addr : list ascii;
  listen_port : Z;
  edns_client_subnet : list ascii;
  logfile : list ascii;
  logfd : Z;
  loglevel : Z;
  daemonize : Z;
  user : list ascii;
  group : list ascii;
  uid : Z;
  gid : Z;
  bootstrap_dns : list ascii;
  curl_proxy : option (list ascii);
  use_http_1_1 : Z
}.

(** The operating system and the constants of the missing headers, as far
    as [options_parse_args] and [main] consult them. *)
Record Env := {
  LOG_ERROR : Z;                              (* [logging.h] *)
  posixly_correct : bool;                     (* [getopt] stops at the first
                                                 operand instead of skipping it *)
  getpwnam : list ascii → option Z;           (* [pw_uid], [None] for [NULL] *)
  getgrnam : list ascii → option Z;           (* [gr_gid], [None] for [NULL] *)
  open_append : list ascii → Z;               (* [open(..., O_CREAT|O_WRONLY|O_APPEND|O_CLOEXEC, ...)] *)
  sys_setgid : Z → Z;
  sys_setuid : Z → Z
}.

Definition STDOUT_FILENO : Z := 1.

Definition default_bootstrap_dns : list ascii :=
  lit "8.8.8.8,8.8.4.4,145.100.185.15,145.100.185.16,185.49.141.37,199.58.81.218,80.67.188.188".

Definition options_init (env : Env) : Options :=
  {| listen_addr := lit "0.0.0.0";
     listen_port := 5353;
     edns_client_subnet := lit "";
     logfile := lit "-";
     logfd := -1;
     loglevel := LOG_ERROR env;
     daemonize := 0;
     user := lit "nobody";
     group := lit "nobody";
     uid := -1;
     gid := -1;
     bootstrap_dns := default_bootstrap_dns;
     curl_proxy := None;
     use_http_1_1 := 0 |}.

Definition set_listen_addr (v : list ascii) (o : Options) : Options :=
  {| listen_addr := v; listen_port := listen_port o;
     edns_client_subnet := edns_client_subnet o; logfile := logfile o;
     logfd := logfd o; loglevel := loglevel o; daemonize := daemonize o;
     user := user o; group := group o; uid := uid o; gid := gid o;
     bootstrap_dns := bootstrap_dns o; curl_proxy := curl_proxy o;
     use_http_1_1 := use_http_1_1 o |}.
Definition set_listen_port (v : Z) (o : Options) : Options :=
  {| listen_addr := listen_addr o; listen_port := v;
     edns_client_subnet := edns_client_subnet o; logfile := logfile o;
     logfd := logfd o; loglevel := loglevel o; daemonize := daemonize o;
     user := user o; group := group o; uid := uid o; gid := gid o;
     bootstrap_dns := bootstrap_dns o; curl_proxy := curl_proxy o;
     use_http_1_1 := use_http_1_1 o |}.
Definition set_edns_client_subnet (v : list ascii) (o : Options) : Options :=
  {| listen_addr := listen_addr o; listen_port := listen_port o;
     edns_client_subnet := v; logfile := logfile o;
     logfd := logfd o; loglevel := loglevel o; daemonize := daemonize o;
     user := user o; group := group o; uid := uid o; gid := gid o;
     bootstrap_dns := bootstrap_dns o; curl_proxy := curl_proxy o;
     use_http_1_1 := use_http_1_1 o |}.
Definition set_logfile (v : list ascii) (o : Options) : Options :=
  {| listen_addr := listen_addr o; listen_port := listen_port o;
     edns_client_subnet := edns_client_subnet o; logfile := v;
     logfd := logfd o; loglevel := loglevel o; daemonize := daemonize o;
     user := user o; group := group o; uid := uid o; gid := gid o;
     bootstrap_dns := bootstrap_dns o; curl_proxy := curl_proxy o;
     use_http_1_1 := use_http_1_1 o |}.
Definition set_logfd (v : Z) (o : Options) : Options :=
  {| listen_addr := listen_addr o; listen_port := listen_port o;
     edns_client_subnet := edns_client_subnet o; logfile := logfile o;
     logfd := v; loglevel := loglevel o; daemonize := daemonize o;
     user := user o; group := group o; uid := uid o; gid := gid o;
     bootstrap_dns := bootstrap_dns o; curl_proxy := curl_proxy o;
     use_http_1_1 := use_http_1_1 o |}.
Definition set_loglevel (v : Z) (o : Options) : Options :=
  {| listen_addr := listen_addr o; listen_port := listen_port o;
     edns_client_subnet := edns_client_subnet o; logfile := logfile o;
     logfd := logfd o; loglevel := v; daemonize := daemonize o;
     user := user o; group := group o; uid := uid o; gid := gid o;
     bootstrap_dns := bootstrap_dns o; curl_proxy := curl_proxy o;
     use_http_1_1 := use_http_1_1 o |}.
Definition set_daemonize (v : Z) (o : Options) : Options :=
  {| listen_addr := listen_addr o; listen_port := listen_port o;
     edns_client_subnet := edns_client_subnet o; logfile := logfile o;
     logfd := logfd o; loglevel := loglevel o; daemonize := v;
     user := user o; group := group o; uid := uid o; gid := gid o;
     bootstrap_dns := bootstrap_dns o; curl_proxy := curl_proxy o;
     use_http_1_1 := use_http_1_1 o |}.
Definition set_user (v : list ascii) (o : Options) : Options :=
  {| listen_addr := listen_addr o; listen_port := listen_port o;
     edns_client_subnet := edns_client_subnet o; logfile := logfile o;
     logfd := logfd o; loglevel := loglevel o; daemonize := daemonize o;
     user := v; group := group o; uid := uid o; gid := gid o;
     bootstrap_dns := bootstrap_dns o; curl_proxy := curl_proxy o;
     use_http_1_1 := use_http_1_1 o |}.
Definition set_group (v : list ascii) (o : Options) : Options :=
  {| listen_addr := listen_addr o; listen_port := listen_port o;
     edns_client_subnet := edns_client_subnet o; logfile := logfile o;
     logfd := logfd o; loglevel := loglevel o; daemonize := daemonize o;
     user := user o; group := v; uid := uid o; gid := gid o;
     bootstrap_dns := bootstrap_dns o; curl_proxy := curl_proxy o;
     use_http_1_1 := use_http_1_1 o |}.
Definition set_uid (v : Z) (o : Options) : Options :=
  {| listen_addr := listen_addr o; listen_port := listen_port o;
     edns_client_subnet := edns_client_subnet o; logfile := logfile o;
     logfd := logfd o; loglevel := loglevel o; daemonize := daemonize o;
     user := user o; group := group o; uid := v; gid := gid o;
     bootstrap_dns := bootstrap_dns o; curl_proxy := curl_proxy o;
     use_http_1_1 := use_http_1_1 o |}.
Definition set_gid (v : Z) (o : Options) : Options :=
  {| listen_addr := listen_addr o; listen_port := listen_port o;
     edns_client_subnet := edns_client_subnet o; logfile := logfile o;
     logfd := logfd o; loglevel := loglevel o; daemonize := daemonize o;
     user := user o; group := group o; uid := uid o; gid := v;
     bootstrap_dns := bootstrap_dns o; curl_proxy := curl_proxy o;
     use_http_1_1 := use_http_1_1 o |}.
Definition set_bootstrap_dns (v : list ascii) (o : Options) : Options :=
  {| listen_addr := listen_addr o; listen_port := listen_port o;
     edns_client_subnet := edns_client_subnet o; logfile := logfile o;
     logfd := logfd o; loglevel := loglevel o; daemonize := daemonize o;
     user := user o; group := group o; uid := uid o; gid := gid o;
     bootstrap_dns := v; curl_proxy := curl_proxy o;
     use_http_1_1 := use_http_1_1 o |}.
Definition set_curl_proxy (v : option (list ascii)) (o : Options) : Options :=
  {| listen_addr := listen_addr o; listen_port := listen_port o;
     edns_client_subnet := edns_client_subnet o; logfile := logfile o;
     logfd := logfd o; loglevel := loglevel o; daemonize := daemonize o;
     user := user o; group := group o; uid := uid o; gid := gid o;
     bootstrap_dns := bootstrap_dns o; curl_proxy := v;
     use_http_1_1 := use_http_1_1 o |}.
Definition set_use_http_1_1 (v : Z) (o : Options) : Options :=
  {| listen_addr := listen_addr o; listen_port := listen_port o;
     edns_client_subnet := edns_client_subnet o; logfile := logfile o;
     logfd := logfd o; loglevel := loglevel o; daemonize := daemonize o;
     user := user o; group := group o; uid := uid o; gid := gid o;
     bootstrap_dns := bootstrap_dns o; curl_proxy := curl_proxy o;
     use_http_1_1 := v |}.

(** [atoi]: optional white space, an optional sign, then decimal digits.
    A value outside [int] is undefined in C; the model keeps the integer. *)
Definition isspace (c : ascii) : bool :=
  let n := nat_of_ascii c in ((n =? 32) || (9 <=? n) && (n <=? 13))%nat.

Definition isdigit (c : ascii) : bool :=
  let n := nat_of_ascii c in ((48 <=? n) && (n <=? 57))%nat.

Fixpoint atoi_digits (acc : Z) (s : list ascii) : Z :=
  match s with
  | c :: s' =>
      if isdigit c then atoi_digits (10 * acc + (Z.of_nat (nat_of_ascii c) - 48)) s'
      else acc
  | [] => acc
  end.

Fixpoint atoi (s : list ascii) : Z :=
  match s with
  | c :: s' =>
      if isspace c then atoi s'
      else if Ascii.eqb c "-" then - atoi_digits 0 s'
      else if Ascii.eqb c "+" then atoi_digits 0 s'
      else atoi_digits 0 s
  | [] => 0
  end.

(** *** getopt(3)

    The scanning position is the rest of the option cluster being read
    ([nextchar]) and the arguments not yet looked at ([argv] from [optind]
    on). *)
Record getopt_state := {
  nextchar : list ascii;
  unread : list (list ascii)
}.

(** What [getopt] returns: [-1], or an option character together with
    [optarg] (empty when the option takes no argument). *)
Inductive getopt_ret :=
  | GetoptEnd
  | GetoptChar (c : ascii) (optarg : list ascii).

(** Looks [c] up in the option string; [Some true] when a colon follows. *)
Fixpoint optstring_find (c : ascii) (optstring : list ascii) : option bool :=
  match optstring with
  | [] => None
  | o :: rest =>
      if Ascii.eqb o c
      then Some (match rest with
                 | ":"%char :: _ => true
                 | _ => false
                 end)
      else optstring_find c rest
  end.

(** One option character [c] of a cluster whose remaining characters are
    [cs]. An unknown character, a colon, and a missing argument all give
    ['?'], as the option string does not start with a colon. *)
Definition getopt_char (optstring : list ascii) (c : ascii) (cs : list ascii)
    (rest : list (list ascii)) : getopt_ret * getopt_state :=
  if Ascii.eqb c ":" then
    (GetoptChar "?" [], {| nextchar := cs; unread := rest |})
  else
    match optstring_find c optstring with
    | None => (GetoptChar "?" [], {| nextchar := cs; unread := rest |})
    | Some false => (GetoptChar c [], {| nextchar := cs; unread := rest |})
    | Some true =>
        match cs with
        | _ :: _ => (GetoptChar c cs, {| nextchar := []; unread := rest |})
        | [] =>
            match rest with
            | a :: rest' =>
                (GetoptChar c a, {| nextchar := []; unread := rest' |})
            | [] => (GetoptChar "?" [], {| nextchar := []; unread := [] |})
            end
        end
    end.

(** Finds the next argument of the form [-x...]. ["--"] ends the options;
    an operand (anything else, also a lone ["-"]) ends them in POSIX mode and
    is skipped otherwise. *)
Fixpoint next_cluster (posix : bool) (args : list (list ascii))
    : option (ascii * list ascii * list (list ascii)) :=
  match args with
  | [] => None
  | a :: rest =>
      if decide (a = lit "--") then None
      else match a with
           | "-"%char :: c :: cs => Some (c, cs, rest)
           | _ => if posix then None else next_cluster posix rest
           end
  end.

Definition getopt (posix : bool) (optstring : list ascii) (st : getopt_state)
    : getopt_ret * getopt_state :=
  match nextchar st with
  | c :: cs => getopt_char optstring c cs (unread st)
  | [] =>
      match next_cluster posix (unread st) with
      | None => (GetoptEnd, st)
      | Some (c, cs, rest) => getopt_char optstring c cs rest
      end
  end.

(** [optind] starts at 1: [argv[0]] is the program name. *)
Definition getopt_start (argv : list (list ascii)) : getopt_state :=
  {| nextchar := []; unread := tail argv |}.

Definition OPTSTRING : list ascii := lit "a:p:e:du:g:t:l:vxh".

(** How the [while]/[switch] of [options_parse_args] is left. *)
Inductive loop_exit :=
  | LoopDone (opt : Options)              (* [getopt] returned [-1] *)
  | LoopReturn (rc : Z) (opt : Options).  (* a [return] inside the [switch] *)

(** The body of the [switch]. *)
Definition option_case (c : ascii) (optarg : list ascii) (opt : Options)
    : result loop_exit :=
  if Ascii.eqb c "a" then Ret (LoopDone (set_listen_addr optarg opt))
  else if Ascii.eqb c "p" then Ret (LoopDone (set_listen_port (atoi optarg) opt))
  else if Ascii.eqb c "e" then Ret (LoopDone (set_edns_client_subnet optarg opt))
  else if Ascii.eqb c "d" then Ret (LoopDone (set_daemonize 1 opt))
  else if Ascii.eqb c "u" then Ret (LoopDone (set_user optarg opt))
  else if Ascii.eqb c "g" then Ret (LoopDone (set_group optarg opt))
  else if Ascii.eqb c "b" then Ret (LoopDone (set_bootstrap_dns optarg opt))
  else if Ascii.eqb c "t" then Ret (LoopDone (set_curl_proxy (Some optarg) opt))
  else if Ascii.eqb c "l" then Ret (LoopDone (set_logfile optarg opt))
  else if Ascii.eqb c "v" then Ret (LoopDone (set_loglevel (loglevel opt - 1) opt))
  else if Ascii.eqb c "x" then Ret (LoopDone (set_use_http_1_1 1 opt))
  else if Ascii.eqb c "h" then Ret (LoopReturn (-1) opt)
  else if Ascii.eqb c "?" then Ret (LoopReturn (-1) opt)
  else Exit 1.

(** [while ((c = getopt(argc, argv, "a:p:e:du:g:t:l:vxh")) != -1) switch ...] *)
Fixpoint option_loop (fuel : nat) (posix : bool) (st : getopt_state)
    (opt : Options) : result loop_exit :=
  match fuel with
  | O => OutOfFuel
  | S fuel' =>
      match getopt posix OPTSTRING st with
      | (GetoptEnd, _) => Ret (LoopDone opt)
      | (GetoptChar c optarg, st') =>
          match option_case c optarg opt with
          | Ret (LoopDone opt') => option_loop fuel' posix st' opt'
          | r => r
          end
      end
  end.

Definition exit_opt (e : loop_exit) : Options :=
  match e with
  | LoopDone opt => opt
  | LoopReturn _ opt => opt
  end.

(** Enough fuel for any command line: every call of [getopt] that returns an
    option uses up a character or an argument. *)
Definition getopt_measure (st : getopt_state) : nat :=
  length (nextchar st) + list_sum (map (λ a, S (length a)) (unread st)).

(** The code after the loop: name look-ups when daemonizing, then the log
    file. *)
Definition options_after_loop (env : Env) (opt : Options) : Z * Options :=
  let check_ids :=
    if daemonize opt =? 0 then inr opt
    else
      match getpwnam env (user opt) with
      | None => inl opt
      | Some pw_uid =>
          if pw_uid =? 0 then inl opt
          else
            let opt := set_uid pw_uid opt in
            match getgrnam env (group opt) with
            | None => inl opt
            | Some gr_gid =>
                if gr_gid =? 0 then inl opt
                else inr (set_gid gr_gid opt)
            end
      end in
  match check_ids with
  | inl opt => (-1, opt)
  | inr opt =>
      if decide (logfile opt = lit "-")
      then (0, set_logfd STDOUT_FILENO opt)
      else
        (* the branch taken when [open] fails only prints a message *)
        (0, set_logfd (open_append env (logfile opt)) opt)
  end.

Definition options_parse_args (env : Env) (opt : Options)
    (argv : list (list ascii)) : result (Z * Options) :=
  let st := getopt_start argv in
  match option_loop (S (getopt_measure st)) (posixly_correct env) st opt with
  | Ret (LoopDone opt) => Ret (options_after_loop env opt)
  | Ret (LoopReturn rc opt) => Ret (rc, opt)
  | Exit c => Exit c
  | Undef u => Undef u
  | OutOfFuel => OutOfFuel
  end.

(** ** main.c: the callbacks *)

(** [text_to_dns.h]: [int text_to_dns(uint16_t tx_id, const char *in,
    unsigned char *out, int outlen)]. The implementation is not among the
    sources; the callbacks are written against this interface. The result is
    the return value and the bytes left in [out]. *)
Class TextToDns := text_to_dns : Z → list ascii → Z → Z * list Z.

Definition u32 (z : Z) : Z := z mod 2 ^ 32.

(** [for (; ';' != buf[datalen] && datalen < buflen; ++datalen);]

    Every turn reads [buf[datalen]] first and compares [datalen] with
    [buflen] afterwards. The result is the final [datalen] and the indices
    of [buf] read, in order. Bytes of [buf] at and beyond [buflen] are
    whatever the memory after the body holds. *)
Fixpoint scan_loop (fuel : nat) (buf : Z → ascii) (buflen datalen : Z)
    (reads : list Z) : option (Z * list Z) :=
  match fuel with
  | O => None
  | S fuel' =>
      let reads := reads ++ [datalen] in
      if negb (Ascii.eqb ";" (buf datalen)) && (datalen <? buflen)
      then scan_loop fuel' buf buflen (u32 (datalen + 1)) reads
      else Some (datalen, reads)
  end.

Definition scan_delimiter (buf : Z → ascii) (buflen : Z) : option (Z * list Z) :=
  scan_loop (S (Z.to_nat buflen)) buf buflen 0 [].

(** [buf[0 .. n-1]], what [memcpy(dst, buf, n)] copies. *)
Definition bytes_of (buf : Z → ascii) (n : Z) : list ascii :=
  map buf (seqZ 0 n).

Definition obuf_size : Z := 1500.

(** [https_resp_cb(data, buf, buflen)]: the completion callback of a fetch.
    [buf] is [None] for the [NULL] the HTTP client passes on failure. *)
Definition https_resp_cb `{codec : TextToDns} (data : option nat)
    (buf : option (Z → ascii)) (buflen : Z) : M unit :=
  match buf with
  | None => ret tt
  | Some buf =>
      p <- match data with
           | Some p => ret p
           | None => FLOG
           end ;;
      req <- load_request p ;;
      namelen <- match strlen_array (name req) with
                 | Some n => ret n
                 | None => lift (Undef ArrayOverread)
                 end ;;
      scanned <- match scan_delimiter buf buflen with
                 | Some r => ret r
                 | None => lift OutOfFuel
                 end ;;
      let datalen := fst scanned in
      (* [calloc(1, namelen + datalen + 2)], then [namelen + 1 + datalen]
         bytes are written to the block *)
      (* [bufcpy] is freed again before the callback returns and is not
         kept on the heap of the model *)
      let size := u32 (namelen + datalen + 2) in
      if size <? namelen + 1 + datalen then lift (Undef HeapOverflow)
      else
        let bufcpy :=
          until_nul (take (Z.to_nat namelen) (name req) ++ [":"%char]
                     ++ bytes_of buf datalen) in
        let '(r, obuf) := text_to_dns (tx_id req) bufcpy obuf_size in
        (if r <=? 0 then ret tt
         else emit (E_dns_server_respond (dns_server req) (raddr req)
                      (take (Z.to_nat r) obuf))) ;;;
        free_request p
  end.

(** [memcpy(req->name, escaped_name, strlen(escaped_name))] into the zeroed
    254-byte [name] of a fresh context. *)
Definition memcpy_name (p : nat) (escaped_name : list ascii) : M unit :=
  req <- load_request p ;;
  if NAME_SIZE <? strlen escaped_name then lift (Undef HeapOverflow)
  else
    store_request p
      {| tx_id := tx_id req; raddr := raddr req;
         dns_server := dns_server req;
         name := escaped_name
                 ++ drop (length escaped_name) (name req) |}.

Definition url_size : Z := 1500.

(** [dns_server_cb(dns_server, data, addr, tx_id, flags, name, type)]:
    called by the UDP server for every decoded query. [data] is the
    application state. *)
Definition dns_server_cb (app : app_state_t) (server : nat)
    (addr : sockaddr_in) (id flags : Z) (qname : list ascii) (type : Z)
    : M unit :=
  if negb (type =? 1) || (253 <? strlen qname) then ret tt
  else
    let cd_bit := Z.land flags (Z.shiftl 1 4) in
    let escaped_name := curl_escape qname in
    let url :=
      snprintf (url_size - 1)
        (lit "http://119.29.29.29/d?dn=" ++ escaped_name
         ++ extra_request_args app) in
    p <- calloc_request
           {| tx_id := id; raddr := addr; dns_server := server;
              name := replicate (Z.to_nat NAME_SIZE) NUL |} ;;
    memcpy_name p escaped_name ;;;
    emit (E_https_client_fetch url (resolv app) p).

(** ** main.c: start-up *)

Definition extra_args_size : Z := 200.

(** The application state [main] builds from the options: [resolv] is
    [NULL], and the extra request arguments are formatted into a static
    200-byte buffer when a client subnet is configured. *)
Definition app_init (opt : Options) : app_state_t :=
  {| https_client := 0%nat;
     resolv := None;
     extra_request_args :=
       match edns_client_subnet opt with
       | _ :: _ =>
           snprintf (extra_args_size - 1)
             (lit "&ip=" ++ edns_client_subnet opt)
       | [] => lit ""
       end |}.

(** [if (opt.daemonize) { setgid; setuid; daemon }]. *)
Definition drop_privileges (env : Env) (opt : Options) : M unit :=
  if negb (daemonize opt =? 0) then
    emit (E_setgid (gid opt)) ;;;
    (if negb (sys_setgid env (gid opt) =? 0) then FLOG else ret tt) ;;;
    emit (E_setuid (uid opt)) ;;;
    (if negb (sys_setuid env (uid opt) =? 0) then FLOG else ret tt) ;;;
    emit E_daemon
  else ret tt.

(** [main] up to and including the call of [ev_run]. The result is the
    application state the callbacks run with. [dns_poller] is declared
    before [ev_run] and never initialised, so no call belongs to it. *)
Definition main (env : Env) (argv : list (list ascii)) : M app_state_t :=
  let opt := options_init env in
  parsed <- lift (options_parse_args env opt argv) ;;
  let '(rc, opt) := parsed in
  if negb (rc =? 0) then
    emit E_options_show_usage ;;; lift (Exit 1)
  else
    emit (E_logging_init (logfd opt) (loglevel opt)) ;;;
    emit E_curl_global_init ;;;
    emit E_https_client_init ;;;
    let app := app_init opt in
    emit (E_dns_server_init (listen_addr opt) (listen_port opt)) ;;;
    drop_privileges env opt ;;;
    emit (E_ev_signal_start SIGPIPE) ;;;
    emit (E_ev_signal_start SIGINT) ;;;
    emit E_logging_flush_init ;;;
    emit E_ev_run ;;;
    ret app.

(** The body of a completed fetch as the callback sees it: the bytes of the
    body at offsets [0 .. length body - 1], and [after] in the memory behind
    them. *)
Definition body_mem (body : list ascii) (after : ascii) : Z → ascii :=
  λ i, nth (Z.to_nat i) body after.

(** The events a command added to a trace. *)
Definition added (w w' : world) : list event :=
  drop (length (trace w)) (trace w').

Definition is_respond (e : event) : bool :=
  match e with E_dns_server_respond _ _ _ => true | _ => false end.

Definition is_fetch (e : event) : bool :=
  match e with E_https_client_fetch _ _ _ => true | _ => false end.

Definition is_free (p : nat) (e : event) : bool :=
  match e with E_free_request q => Nat.eqb p q | _ => false end.

Definition is_poller_init (e : event) : bool :=
  match e with E_dns_poller_init => true | _ => false end.

(** The number of events of a kind. *)
Fixpoint count (f : event → bool) (l : list event) : nat :=
  match l with
  | [] => 0
  | e :: l' => (if f e then 1 else 0) + count f l'
  end.

(** ** The wire codec behind [text_to_dns] *)

Module Codec.

Fixpoint split_on (sep : ascii) (s : list ascii) : list (list ascii) :=
  match s with
  | [] => [[]]
  | c :: s' =>
      if Ascii.eqb c sep then [] :: split_on sep s'
      else match split_on sep s' with
           | piece :: pieces => (c :: piece) :: pieces
           | [] => [[c]]
           end
  end.

(** One to three decimal digits with a value of at most 255. *)
Definition parse_octet (s : list ascii) : option Z :=
  if forallb isdigit s && (1 <=? length s)%nat && (length s <=? 3)%nat
  then let v := atoi_digits 0 s in
       if v <=? 255 then Some v else None
  else None.

(** An IP literal [a.b.c.d]. *)
Definition parse_ipv4 (s : list ascii) : option (list Z) :=
  match split_on "." s with
  | [a; b; c; d] =>
      match parse_octet a, parse_octet b, parse_octet c, parse_octet d with
      | Some a, Some b, Some c, Some d => Some [a; b; c; d]
      | _, _, _, _ => None
      end
  | _ => None
  end.

Fixpoint parse_all (pieces : list (list ascii)) : option (list (list Z)) :=
  match pieces with
  | [] => Some []
  | p :: ps =>
      match parse_ipv4 p, parse_all ps with
      | Some a, Some l => Some (a :: l)
      | _, _ => None
      end
  end.

(** Modelled from the spec: [parse_answer_body] for the plain-text format
    (the parser lives in [text_to_dns.c], which is not among the sources).
    The body is [<ip>[;<ip>...]], optionally closed by a semicolon; an
    empty body is the empty answer; anything else is a bad body. *)
Definition parse_answer_body (data : list ascii) : option (list (list Z)) :=
  match data with
  | [] => Some []
  | _ =>
      let pieces := split_on ";" data in
      match last pieces with
      | Some [] => parse_all (removelast pieces)
      | _ => parse_all pieces
      end
  end.

Definition be16 (v : Z) : list Z := [v / 256 mod 256; v mod 256].
Definition be32 (v : Z) : list Z :=
  [v / 16777216 mod 256; v / 65536 mod 256; v / 256 mod 256; v mod 256].

(** A name as length-prefixed labels, closed by the root label. *)
Definition encode_name (qname : list ascii) : list Z :=
  match qname with
  | [] => [0]
  | _ =>
      concat (map (λ label, Z.of_nat (length label)
                            :: map (λ c, Z.of_nat (nat_of_ascii c)) label)
                  (split_on "." qname)) ++ [0]
  end.

Definition QR : Z := 32768.   (* response *)
Definition RA : Z := 128.     (* recursion available *)
Definition TC : Z := 512.     (* truncated *)

(** One answer record: a pointer back to the question name, type A,
    class IN, the TTL, and the four address bytes. *)
Definition encode_answer (ttl : Z) (addr : list Z) : list Z :=
  [192; 12] ++ be16 1 ++ be16 1 ++ be32 ttl ++ be16 4 ++ addr.

(** Modelled from the spec: [encode_response] (it lives in
    [text_to_dns.c], which is not among the sources). The message repeats
    the id and the question, sets the response and recursion-available
    bits, and carries one record per address with a fixed positive TTL;
    answers that do not fit in [outlen] bytes are cut off and the
    truncation bit is set. *)
Definition encode_response (ttl id : Z) (qname : list ascii)
    (answers : list (list Z)) (outlen : Z) : list Z :=
  let question := encode_name qname ++ be16 1 ++ be16 1 in
  let room := (outlen - 12 - Z.of_nat (length question)) / 16 in
  let fit := take (Z.to_nat room) answers in
  let flags :=
    if (length fit <? length answers)%nat then QR + RA + TC else QR + RA in
  be16 id ++ be16 flags ++ be16 1 ++ be16 (Z.of_nat (length fit))
    ++ be16 0 ++ be16 0
    ++ question ++ concat (map (encode_answer ttl) fit).

(** Modelled from the spec: [text_to_dns] ([text_to_dns.c] is not among
    the sources). The input is [<name>:<body>] as [https_resp_cb] builds
    it; the result is the length of the encoded response, or [-1] for a
    bad body, for which nothing is sent. *)
Definition spec_text_to_dns (ttl : Z) : TextToDns :=
  λ id input outlen,
    match split_on ":" input with
    | qname :: body :: [] =>
        match parse_answer_body body with
        | Some answers =>
            let out := encode_response ttl id qname answers outlen in
            (Z.of_nat (length out), out)
        | None => (-1, [])
        end
    | _ => (-1, [])
    end.

(** Reading a response back. *)
Definition msg_id (m : list Z) : Z :=
  match m with
  | hi :: lo :: _ => hi * 256 + lo
  | _ => -1
  end.

Definition msg_ancount (m : list Z) : Z :=
  match drop 6 m with
  | hi :: lo :: _ => hi * 256 + lo
  | _ => -1
  end.

(** Skips a name in label form. *)
Fixpoint skip_name (fuel : nat) (m : list Z) : list Z :=
  match fuel, m with
  | S fuel', len :: rest =>
      if len =? 0 then rest else skip_name fuel' (drop (Z.to_nat len) rest)
  | _, _ => m
  end.

Fixpoint read_answers (n : nat) (m : list Z) : list (list Z) :=
  match n with
  | O => []
  | S n' => take 4 (drop 12 m) :: read_answers n' (drop 16 m)
  end.

(** The addresses of the answer section, in order. *)
Definition msg_addresses (m : list Z) : list (list Z) :=
  let after_question := drop 4 (skip_name (length m) (drop 12 m)) in
  read_answers (Z.to_nat (msg_ancount m)) after_question.

End Codec.

(** The context pointers of the fetches among some events. *)
Fixpoint fetched (evs : list event) : list nat :=
  match evs with
  | [] => []
  | E_https_client_fetch _ _ p :: evs' => p :: fetched evs'
  | _ :: evs' => fetched evs'
  end.

(** Modelled from the spec: the completion side of the HTTP engine
    ([https_client.c] is not among the sources). The engine calls the
    completion callback once for a fetch, with the context pointer the fetch
    was given and either the body or the failure sentinel. [serve] is one
    decoded query from [dns_server_cb] to that call; a query for which no
    fetch was issued ends with [dns_server_cb]. *)
Definition serve `{codec : TextToDns} (app : app_state_t) (server : nat)
    (addr : sockaddr_in) (id flags : Z) (qname : list ascii) (type : Z)
    (buf : option (Z → ascii)) (buflen : Z) : M unit :=
  λ w, match dns_server_cb app server addr id flags qname type w with
       | (w1, Ret _) =>
           match fetched (added w w1) with
           | p :: _ => https_resp_cb (Some p) buf buflen w1
           | [] => (w1, Ret tt)
           end
       | (w1, r) => (w1, r)
       end.

(** The length of the first record of a body: where the scan of
    [https_resp_cb] stops. *)
Definition datalen_of (buf : Z → ascii) (buflen : Z) : Z :=
  match scan_delimiter buf buflen with
  | Some (d, _) => d
  | None => 0
  end.

(** The text [https_resp_cb] hands to [text_to_dns] for a context and a
    body: the stored name, a colon, and the first record of the body. *)
Definition codec_input (req : request_t) (buf : Z → ascii) (buflen : Z)
    : list ascii :=
  until_nul (until_nul (name req) ++ [":"%char]
             ++ bytes_of buf (datalen_of buf buflen)).

(** What the callback sends for a context and a body: nothing when
    [text_to_dns] reports failure, one datagram otherwise. *)
Definition replies_for `{codec : TextToDns} (req : request_t) (buf : Z → ascii)
    (buflen : Z) : list event :=
  let '(r, obuf) :=
    text_to_dns (tx_id req) (codec_input req buf buflen) obuf_size in
  if r <=? 0 then []
  else [E_dns_server_respond (dns_server req) (raddr req)
          (take (Z.to_nat r) obuf)].

(** The context of an accepted query, as it lies on the heap. *)
Definition request_of (server : nat) (addr : sockaddr_in) (id : Z)
    (qname : list ascii) : request_t :=
  {| tx_id := id; raddr := addr; dns_server := server;
     name := curl_escape qname
             ++ replicate (Z.to_nat NAME_SIZE - length (curl_escape qname)) NUL |}.

(** [m] only ever appends events that satisfy [P]. *)
Definition emits {A} (P : event → Prop) (m : M A) : Prop :=
  ∀ w, ∃ evs, trace (fst (m w)) = trace w ++ evs ∧ Forall P evs.

(** An event that is no start of the poller and, if it is a fetch, carries
    the [resolv] list [rs]. *)
Definition fetch_with (rs : option (list (list ascii))) (e : event) : Prop :=
  is_poller_init e = false
  ∧ ∀ url rs' p, e = E_https_client_fetch url rs' p → rs' = rs.

(** What [getopt] can hand out for the option string of the proxy: ['?'],
    or a character of the option string other than the colon. *)
Definition returnable (c : ascii) : Prop :=
  c = "?"%char ∨ (In c OPTSTRING ∧ c ≠ ":"%char).

(** A datagram that answers the query [id] of the client [addr]. *)
Definition answers_query (addr : sockaddr_in) (id : Z) (e : event) : Prop :=
  ∀ srv ra payload,
    e = E_dns_server_respond srv ra payload →
    ra = addr ∧ Codec.msg_id payload = id.

(** ** Inputs of the worked examples *)

Module Examples.

(** A host where [nobody] exists and log files can be opened. *)
Definition env_ok : Env :=
  {| LOG_ERROR := 3;
     posixly_correct := false;
     getpwnam := λ u, if decide (u = lit "nobody") then Some 65534 else None;
     getgrnam := λ g, if decide (g = lit "nobody") then Some 65534 else None;
     open_append := λ _, 3;
     sys_setgid := λ _, 0;
     sys_setuid := λ _, 0 |}.

(** The same host, where [open] fails for every log file. *)
Definition env_no_log : Env :=
  {| LOG_ERROR := 3;
     posixly_correct := false;
     getpwnam := getpwnam env_ok;
     getgrnam := getgrnam env_ok;
     open_append := λ _, -1;
     sys_setgid := λ _, 0;
     sys_setuid := λ _, 0 |}.

Definition client : sockaddr_in := {| sin_addr := 3232235786; sin_port := 40000 |}.

Definition app_plain : app_state_t := app_init (options_init env_ok).

Definition example_com : list ascii := lit "example.com".

(** Two labels of 63 asterisks: 127 characters, a legal name on the wire. *)
Definition starred_name : list ascii :=
  replicate 63 "*"%char ++ lit "." ++ replicate 63 "*"%char.

Definition one_address : list ascii := lit "93.184.216.34".
Definition two_addresses : list ascii := lit "93.184.216.34;93.184.216.35;".
Definition two_addresses' : list ascii := lit "93.184.216.34;10.0.0.1;".

Definition long_subnet : list ascii := replicate 200 "1"%char.

Definition ttl : Z := 300.

(** The world after the proxy has accepted the query for [example.com]
    with id [0x1234]. *)
Definition accepted_world : world :=
  fst (dns_server_cb app_plain 0%nat client 4660 256 example_com 1 world0).

End Examples.

(** ** options.c: clean-up *)

(** [options_cleanup]: the descriptors it closes, [logfd] when it is
    positive. *)
Definition options_cleanup (opt : Options) : list Z :=
  if 0 <? logfd opt then [logfd opt] else [].

(** The scanning position from which [options_parse_args] starts the option
    loop with the fuel it needs. *)
Definition parse_loop (posix : bool) (st : getopt_state) (opt : Options)
    : result loop_exit :=
  option_loop (S (getopt_measure st)) posix st opt.


(** The option letters the [switch] acts on without returning. *)
Definition option_letters : list ascii := lit "apedugtlvx".

(** The fields the option loop never assigns. *)
Definition loop_keeps (opt opt' : Options) : Prop :=
  uid opt' = uid opt ∧ gid opt' = gid opt ∧ logfd opt' = logfd opt.

(** The descriptor [options_parse_args] stores for a log file name. *)
Definition logfd_for (env : Env) (file : list ascii) : Z :=
  if decide (file = lit "-") then STDOUT_FILENO else open_append env file.

(** ** Several queries *)

(** Every context number not yet handed out is free. *)
Definition world_ok (w : world) : Prop :=
  ∀ p, (next_request w ≤ p)%nat → heap w !! p = None.

(** A decoded query together with the way its fetch completes. *)
Record exchange := {
  x_server : nat;
  x_addr : sockaddr_in;
  x_id : Z;
  x_flags : Z;
  x_name : list ascii;
  x_type : Z;
  x_buf : option (Z → ascii);
  x_buflen : Z
}.

(** Queries served one after the other, each to its completion. *)
Fixpoint serve_all `{codec : TextToDns} (app : app_state_t)
    (xs : list exchange) : M unit :=
  match xs with
  | [] => ret tt
  | x :: xs' =>
      serve app (x_server x) (x_addr x) (x_id x) (x_flags x) (x_name x)
        (x_type x) (x_buf x) (x_buflen x) ;;;
      serve_all app xs'
  end.

(** A query the proxy accepts, with a name that fits the context after
    escaping and a body of a size the callback can handle. *)
Definition servable (x : exchange) : Prop :=
  x_type x = 1
  ∧ strlen (x_name x) ≤ 253
  ∧ strlen (curl_escape (x_name x)) < NAME_SIZE
  ∧ 0 ≤ x_buflen x < 2 ^ 31.

(** The exchanges whose fetch failed. *)
Definition failed (xs : list exchange) : list exchange :=
  filter (λ x, x_buf x = None) xs.


(** ** Inputs of the further examples *)

Module MoreExamples.

Definition other_client : sockaddr_in :=
  {| sin_addr := 3232235787; sin_port := 40001 |}.

Definition example_org : list ascii := lit "example.org".

(** The world with two queries accepted and no fetch completed: context 0
    for [example.com], context 1 for [example.org]. *)
Definition two_pending : world :=
  fst (dns_server_cb Examples.app_plain 0%nat other_client 22136 256
         example_org 1 Examples.accepted_world).


Definition body_a : Z → ascii := body_mem (lit "93.184.216.34;") NUL.
Definition body_b : Z → ascii := body_mem (lit "10.0.0.1") NUL.

(** Two queries: one answered, one whose fetch fails. *)
Definition two_exchanges : list exchange :=
  [ {| x_server := 0%nat; x_addr := Examples.client; x_id := 4660;
       x_flags := 256; x_name := Examples.example_com; x_type := 1;
       x_buf := Some body_a; x_buflen := 14 |};
    {| x_server := 0%nat; x_addr := other_client; x_id := 22136;
       x_flags := 256; x_name := example_org; x_type := 1;
       x_buf := None; x_buflen := 0 |} ].

End MoreExamples.

(** * Properties *)

Arguments Ascii.eqb : simpl never.

(** ** C strings *)

Section CStrFacts.

Lemma length_escape_char c :
  (1 ≤ length (escape_char c) ≤ 3)%nat.
Proof. unfold escape_char. destruct (isunreserved c); simpl; lia. Qed.

Lemma length_curl_escape s :
  (length s ≤ length (curl_escape s) ≤ 3 * length s)%nat.
Proof.
  induction s as [|c s IH]; simpl; [lia|].
  rewrite length_app. pose proof (length_escape_char c). lia.
Qed.

Lemma hex_digit_not_nul n : hex_digit n ≠ NUL.
Proof.
  unfold hex_digit.
  destruct (nth_in_or_default n (lit "0123456789ABCDEF") "0"%char)
    as [Hin|Hdef]; [|rewrite Hdef; discriminate].
  revert Hin. generalize (nth n (lit "0123456789ABCDEF") "0"%char).
  intros c Hin. simpl in Hin.
  repeat (destruct Hin as [<-|Hin]; [discriminate|]). destruct Hin.
Qed.

Lemma isunreserved_not_nul c : isunreserved c = true → c ≠ NUL.
Proof. intros H ->. discriminate H. Qed.

Lemma curl_escape_no_nul s : Forall (λ c, c ≠ NUL) (curl_escape s).
Proof.
  induction s as [|c s IH]; simpl; [constructor|].
  apply Forall_app. split; [|exact IH].
  unfold escape_char. destruct (isunreserved c) eqn:E.
  - repeat constructor. by apply isunreserved_not_nul.
  - repeat constructor; [discriminate|apply hex_digit_not_nul..].
Qed.

Lemma curl_escape_unreserved s :
  forallb isunreserved s = true → curl_escape s = s.
Proof.
  induction s as [|c s IH]; simpl; [done|].
  intros [Hc Hs]%andb_true_iff. unfold escape_char. rewrite Hc.
  simpl. by rewrite IH.
Qed.

Lemma eqb_NUL_false c : c ≠ NUL → Ascii.eqb c NUL = false.
Proof. intros H. by apply Ascii.eqb_neq. Qed.

(** [strlen] of an array that holds a NUL-free text followed by a NUL. *)
Lemma strlen_array_terminated s rest :
  Forall (λ c, c ≠ NUL) s →
  strlen_array (s ++ NUL :: rest) = Some (strlen s).
Proof.
  unfold strlen. induction 1 as [|c s Hc Hs IH]; simpl; [done|].
  rewrite eqb_NUL_false by done. rewrite IH. f_equal. lia.
Qed.


Lemma until_nul_id s : Forall (λ c, c ≠ NUL) s → until_nul s = s.
Proof.
  induction 1 as [|c s Hc Hs IH]; simpl; [done|].
  rewrite eqb_NUL_false by done. by rewrite IH.
Qed.

Lemma snprintf_fits size s :
  strlen s ≤ size - 1 → snprintf size s = s.
Proof. unfold snprintf, strlen. intros H. apply take_ge. lia. Qed.

Lemma snprintf_length size s :
  1 ≤ size → strlen (snprintf size s) ≤ size - 1.
Proof. unfold snprintf, strlen. rewrite length_take. lia. Qed.

End CStrFacts.

(** ** The delimiter scan of [https_resp_cb] *)

Section Scan.

Variable buf : Z → ascii.
Variable buflen : Z.
Hypothesis buflen_u32 : 0 ≤ buflen < 2 ^ 32.

Lemma u32_small z : 0 ≤ z < 2 ^ 32 → u32 z = z.
Proof. intros. unfold u32. by apply Z.mod_small. Qed.

(** The loop from [datalen = d] on: it stops at the first semicolon at or
    after [d], or at [buflen], having read every index from [d] up to and
    including the one it stops at. The increment never wraps. *)
Lemma scan_loop_spec fuel :
  ∀ d reads,
    0 ≤ d ≤ buflen →
    (Z.to_nat (buflen - d) < fuel)%nat →
    ∃ d', scan_loop fuel buf buflen d reads
          = Some (d', reads ++ seqZ d (d' - d + 1))
        ∧ d ≤ d' ≤ buflen
        ∧ (∀ j, d ≤ j < d' → buf j ≠ ";"%char)
        ∧ (d' < buflen → buf d' = ";"%char).
Proof.
  induction fuel as [|fuel IH]; intros d reads Hd Hfuel; [lia|].
  cbn [scan_loop].
  destruct (Ascii.eqb_spec ";" (buf d)) as [Heq|Hne]; cbn [negb andb].
  - exists d. replace (d - d + 1) with 1 by lia.
    split; [done|]. split; [lia|]. split; [intros; lia|done].
  - destruct (Z.ltb_spec d buflen) as [Hlt|Hge].
    + rewrite u32_small by lia.
      destruct (IH (d + 1) (reads ++ [d])) as (d' & Hrun & Hd' & Hno & Hat);
        [lia|lia|].
      exists d'. rewrite Hrun. split.
      * f_equal. f_equal. rewrite <- app_assoc. f_equal.
        rewrite (seqZ_cons d (d' - d + 1)) by lia. simpl.
        do 2 f_equal; lia.
      * split; [lia|]. split; [|done].
        intros j Hj. destruct (decide (j = d)) as [->|]; [congruence|].
        apply Hno. lia.
    + exists d. replace (d - d + 1) with 1 by lia.
      split; [done|]. split; [lia|]. split; intros; lia.
Qed.

(** The scan returns, and what it returns. *)
Lemma scan_delimiter_spec :
  ∃ d, scan_delimiter buf buflen = Some (d, seqZ 0 (d + 1))
     ∧ 0 ≤ d ≤ buflen
     ∧ (∀ j, 0 ≤ j < d → buf j ≠ ";"%char)
     ∧ (d < buflen → buf d = ";"%char).
Proof.
  unfold scan_delimiter.
  destruct (scan_loop_spec (S (Z.to_nat buflen)) 0 [])
    as (d & Hrun & Hd & Hno & Hat); [lia|lia|].
  exists d. rewrite Hrun. replace (d - 0 + 1) with (d + 1) by lia. done.
Qed.

(** With a semicolon in the body, the scan stops at the first one. *)
Lemma scan_delimiter_first i :
  0 ≤ i < buflen →
  buf i = ";"%char →
  (∀ j, 0 ≤ j < i → buf j ≠ ";"%char) →
  scan_delimiter buf buflen = Some (i, seqZ 0 (i + 1)).
Proof.
  intros Hi Hsemi Hfirst.
  destruct scan_delimiter_spec as (d & -> & Hd & Hno & Hat).
  assert (d = i) as ->; [|done].
  destruct (Z.lt_trichotomy d i) as [Hlt|[->|Hgt]]; [|done|].
  - exfalso. apply (Hfirst d); [lia|]. apply Hat. lia.
  - exfalso. apply (Hno i); [lia|done].
Qed.

(** Without one, it runs to [buflen] and reads [buf[buflen]] on the way. *)
Lemma scan_delimiter_no_semicolon :
  (∀ j, 0 ≤ j < buflen → buf j ≠ ";"%char) →
  scan_delimiter buf buflen = Some (buflen, seqZ 0 (buflen + 1)).
Proof.
  intros Hno.
  destruct scan_delimiter_spec as (d & -> & Hd & _ & Hat).
  assert (d = buflen) as ->; [|done].
  destruct (decide (d = buflen)) as [|Hne]; [done|].
  exfalso. apply (Hno d); [lia|]. apply Hat. lia.
Qed.

(** No read goes further than one byte past the body. *)
Lemma scan_delimiter_reads_le d reads :
  scan_delimiter buf buflen = Some (d, reads) →
  Forall (λ i, 0 ≤ i ≤ buflen) reads.
Proof.
  destruct scan_delimiter_spec as (d' & -> & Hd & _ & _).
  intros [= <- <-]. apply Forall_seqZ. intros. lia.
Qed.

End Scan.

(** ** The callbacks, step by step *)

Section Callbacks.

Context `{codec : TextToDns}.

Lemma strlen_array_take a n :
  strlen_array a = Some n →
  0 ≤ n ∧ until_nul a = take (Z.to_nat n) a
  ∧ Forall (λ c, c ≠ NUL) (until_nul a).
Proof.
  revert n. induction a as [|c a IH]; intros n; simpl; [done|].
  destruct (Ascii.eqb_spec c NUL) as [->|Hc].
  - intros [= <-]. simpl. done.
  - destruct (strlen_array a) as [m|]; [|done].
    intros [= <-]. destruct (IH m eq_refl) as (Hm & Htake & Hall).
    split; [lia|].
    replace (Z.to_nat (m + 1)) with (S (Z.to_nat m)) by lia.
    simpl. rewrite <- Htake. split; [done|]. by constructor.
Qed.

(** A dropped query leaves the world as it is. *)
Lemma dns_server_cb_drop app server addr id flags qname type w :
  type ≠ 1 ∨ 253 < strlen qname →
  dns_server_cb app server addr id flags qname type w = (w, Ret tt).
Proof.
  intros Hdrop. unfold dns_server_cb.
  destruct (Z.eqb_spec type 1) as [->|Hne]; simpl; [|done].
  destruct Hdrop as [?|Hlong]; [done|].
  destruct (Z.ltb_spec 253 (strlen qname)); [done|lia].
Qed.

(** An accepted query whose escaped name fits the [name] array: one
    context is allocated and one fetch is issued, carrying it. *)
Lemma dns_server_cb_accept app server addr id flags qname w :
  strlen qname ≤ 253 →
  strlen (curl_escape qname) ≤ NAME_SIZE →
  dns_server_cb app server addr id flags qname 1 w =
    ({| trace := trace w ++
          [E_calloc_request (next_request w);
           E_https_client_fetch
             (snprintf (url_size - 1)
                (lit "http://119.29.29.29/d?dn=" ++ curl_escape qname
                 ++ extra_request_args app))
             (resolv app) (next_request w)];
        heap := <[next_request w := request_of server addr id qname]> (heap w);
        next_request := S (next_request w) |}, Ret tt).
Proof.
  intros Hlen Hfit. unfold dns_server_cb. cbn [negb orb Z.eqb Pos.eqb].
  destruct (Z.ltb_spec 253 (strlen qname)); [lia|].
  unfold bind, calloc_request, memcpy_name, bind, load_request,
    store_request, emit. cbn [heap trace next_request name].
  rewrite lookup_insert_eq.
  destruct (Z.ltb_spec NAME_SIZE (strlen (curl_escape qname))); [lia|].
  cbn [heap trace next_request name tx_id raddr dns_server].
  rewrite lookup_insert_eq.
  cbn [heap trace next_request name tx_id raddr dns_server].
  rewrite insert_insert_eq, <- List.app_assoc. cbn [List.app].
  unfold request_of. by rewrite drop_replicate.
Qed.

(** An accepted query whose escaped name is longer than the array: the
    copy runs over the end of the freshly allocated context, and no fetch
    is issued. *)
Lemma dns_server_cb_overflow app server addr id flags qname w :
  strlen qname ≤ 253 →
  NAME_SIZE < strlen (curl_escape qname) →
  ∃ h,
    dns_server_cb app server addr id flags qname 1 w
    = ({| trace := trace w ++ [E_calloc_request (next_request w)];
          heap := h; next_request := S (next_request w) |},
       Undef HeapOverflow).
Proof.
  intros Hlen Hbig. unfold dns_server_cb. cbn [negb orb Z.eqb Pos.eqb].
  destruct (Z.ltb_spec 253 (strlen qname)); [lia|].
  unfold bind, calloc_request, memcpy_name, bind, load_request.
  cbn [heap trace next_request name].
  rewrite lookup_insert_eq.
  destruct (Z.ltb_spec NAME_SIZE (strlen (curl_escape qname))); [|lia].
  by eexists.
Qed.

(** A failed fetch: the callback returns at once and touches nothing. *)
Lemma https_resp_cb_failure data buflen w :
  https_resp_cb data None buflen w = (w, Ret tt).
Proof. done. Qed.

(** A fetch that delivers a body, for a live context with a terminated
    name: at most one datagram is sent, then the context is freed. *)
Lemma https_resp_cb_body p req n buf buflen w :
  heap w !! p = Some req →
  strlen_array (name req) = Some n →
  0 ≤ buflen →
  n + buflen + 2 < 2 ^ 32 →
  https_resp_cb (Some p) (Some buf) buflen w =
    ({| trace := trace w ++ replies_for req buf buflen ++ [E_free_request p];
        heap := delete p (heap w);
        next_request := next_request w |}, Ret tt).
Proof.
  intros Hp Hn Hbuflen Hsize.
  destruct (strlen_array_take _ _ Hn) as (Hn0 & Htake & _).
  destruct (scan_delimiter_spec buf buflen ltac:(lia))
    as (d & Hscan & Hd & _ & _).
  unfold https_resp_cb, bind, ret, load_request, lift. simpl.
  rewrite Hp, Hn, Hscan. simpl.
  rewrite u32_small by lia.
  destruct (Z.ltb_spec (n + d + 2) (n + 1 + d)); [lia|].
  unfold replies_for, codec_input, datalen_of. rewrite Hscan, Htake.
  destruct (text_to_dns _ _ _) as [r obuf].
  unfold free_request, emit.
  destruct (r <=? 0); simpl; rewrite Hp; simpl; [done|].
  by rewrite <- app_assoc.
Qed.

Local Ltac nothing_added :=
  exists []; split; [by rewrite app_nil_r | by left].

(** However the callback ends for a body, it adds nothing, or the replies
    for the context followed by its release. *)
Lemma https_resp_cb_added p req buf buflen w :
  heap w !! p = Some req →
  ∃ evs,
    trace (fst (https_resp_cb (Some p) (Some buf) buflen w)) = trace w ++ evs
    ∧ (evs = [] ∨ evs = replies_for req buf buflen ++ [E_free_request p]).
Proof.
  intros Hp. unfold https_resp_cb.
  unfold bind, ret, load_request, lift. rewrite Hp.
  destruct (strlen_array (name req)) as [n|] eqn:Hn; [|nothing_added].
  destruct (strlen_array_take _ _ Hn) as (Hn0 & Htake & _).
  unfold replies_for, codec_input, datalen_of.
  destruct (scan_delimiter buf buflen) as [[d reads]|]; [|nothing_added].
  cbn [fst]. destruct (_ <? _); [nothing_added|].
  rewrite Htake. destruct (text_to_dns _ _ _) as [r obuf].
  unfold free_request, emit.
  destruct (r <=? 0); cbn [trace heap next_request]; rewrite Hp;
    cbn [fst trace].
  - eexists. split; [done|]. by right.
  - eexists. rewrite <- app_assoc. split; [done|]. by right.
Qed.

End Callbacks.

(** ** options.c *)

Section OptionsFacts.

Lemma optstring_find_In c optstring b :
  optstring_find c optstring = Some b → In c optstring.
Proof.
  induction optstring as [|o rest IH]; simpl; [done|].
  destruct (Ascii.eqb_spec o c) as [->|_]; [by left|].
  intros H. right. by apply IH.
Qed.

(** ['b'] is not in the option string. *)
Lemma optstring_find_b : optstring_find "b" OPTSTRING = None.
Proof. reflexivity. Qed.

Lemma getopt_char_returnable c cs rest c' a st' :
  getopt_char OPTSTRING c cs rest = (GetoptChar c' a, st') →
  returnable c'.
Proof.
  unfold getopt_char.
  destruct (Ascii.eqb_spec c ":") as [->|Hcolon].
  { intros [= <- _ _]. by left. }
  destruct (optstring_find c OPTSTRING) as [[|]|] eqn:Hfind.
  - apply optstring_find_In in Hfind.
    destruct cs as [|c0 cs].
    + destruct rest as [|a0 rest'].
      * intros [= <- _ _]. by left.
      * intros [= <- _ _]. by right.
    + intros [= <- _ _]. by right.
  - apply optstring_find_In in Hfind. intros [= <- _ _]. by right.
  - intros [= <- _ _]. by left.
Qed.

Lemma getopt_returnable posix st c a st' :
  getopt posix OPTSTRING st = (GetoptChar c a, st') → returnable c.
Proof.
  unfold getopt. destruct (nextchar st) as [|c0 cs].
  - destruct (next_cluster posix (unread st)) as [[[c1 cs1] rest]|]; [|done].
    apply getopt_char_returnable.
  - apply getopt_char_returnable.
Qed.

(** The [switch] handles every character [getopt] can return without
    reaching its [default], and never assigns [bootstrap_dns]. *)
Lemma option_case_returnable c a opt :
  returnable c →
  ∃ e, option_case c a opt = Ret e
     ∧ bootstrap_dns (exit_opt e) = bootstrap_dns opt.
Proof.
  intros [->|[Hin Hcolon]].
  - eexists. split; reflexivity.
  - unfold OPTSTRING, lit in Hin. simpl in Hin.
    repeat (destruct Hin as [<-|Hin];
            [first [done | eexists; split; reflexivity]|]).
    destruct Hin.
Qed.

Lemma next_cluster_measure posix args c cs rest :
  next_cluster posix args = Some (c, cs, rest) →
  (length cs + list_sum (map (λ a, S (length a)) rest)
   < list_sum (map (λ a, S (length a)) args))%nat.
Proof.
  induction args as [|a args IH]; simpl; [done|].
  destruct (decide _); [done|].
  assert (Hskip : (if posix then None else next_cluster posix args)
                  = Some (c, cs, rest) →
                  (length cs + list_sum (map (λ a, S (length a)) rest)
                   < S (length a + list_sum (map (λ a, S (length a)) args)))%nat).
  { destruct posix; [done|]. intros H%IH. lia. }
  destruct a as [|a0 a]; [exact Hskip|].
  destruct (Ascii.eqb_spec a0 "-") as [->|Hne].
  - destruct a as [|a1 a]; [exact Hskip|].
    intros [= <- <- <-]. simpl. lia.
  - destruct a0 as [[] [] [] [] [] [] [] []]; try exact Hskip.
    by destruct Hne.
Qed.

Lemma getopt_char_measure c cs rest c' a st' :
  getopt_char OPTSTRING c cs rest = (GetoptChar c' a, st') →
  (getopt_measure st'
   ≤ length cs + list_sum (map (λ a, S (length a)) rest))%nat.
Proof.
  unfold getopt_char, getopt_measure.
  destruct (Ascii.eqb c ":").
  { intros [= _ _ <-]. simpl. lia. }
  destruct (optstring_find c OPTSTRING) as [[|]|].
  - destruct cs as [|c0 cs].
    + destruct rest as [|a0 rest'].
      * intros [= _ _ <-]. simpl. lia.
      * intros [= _ _ <-]. simpl. lia.
    + intros [= _ _ <-]. simpl. lia.
  - intros [= _ _ <-]. simpl. lia.
  - intros [= _ _ <-]. simpl. lia.
Qed.

(** Every option [getopt] returns moves the scanning position on. *)
Lemma getopt_measure_decreases posix st c a st' :
  getopt posix OPTSTRING st = (GetoptChar c a, st') →
  (getopt_measure st' < getopt_measure st)%nat.
Proof.
  unfold getopt. destruct st as [next args]. simpl.
  destruct next as [|c0 cs].
  - destruct (next_cluster posix args) as [[[c1 cs1] rest]|] eqn:Hnext;
      [|done].
    intros H%getopt_char_measure. apply next_cluster_measure in Hnext.
    unfold getopt_measure at 2. simpl. lia.
  - intros H%getopt_char_measure. unfold getopt_measure at 2. simpl. lia.
Qed.

(** The option loop ends for every command line, through [getopt]
    returning [-1] or through a [return], and leaves [bootstrap_dns] as it
    found it. *)
Lemma option_loop_spec posix fuel :
  ∀ st opt,
    (getopt_measure st < fuel)%nat →
    ∃ e, option_loop fuel posix st opt = Ret e
       ∧ bootstrap_dns (exit_opt e) = bootstrap_dns opt.
Proof.
  induction fuel as [|fuel IH]; intros st opt Hfuel; [lia|].
  cbn [option_loop].
  destruct (getopt posix OPTSTRING st) as [[|c a] st'] eqn:Hget.
  - by exists (LoopDone opt).
  - pose proof (getopt_measure_decreases _ _ _ _ _ Hget) as Hdec.
    destruct (option_case_returnable c a opt
                (getopt_returnable _ _ _ _ _ Hget)) as (e & -> & Hboot).
    destruct e as [opt'|rc opt'].
    + destruct (IH st' opt') as (e' & -> & Hboot'); [lia|].
      exists e'. split; [done|]. simpl in Hboot. congruence.
    + by exists (LoopReturn rc opt').
Qed.

Lemma options_after_loop_bootstrap env opt :
  bootstrap_dns (snd (options_after_loop env opt)) = bootstrap_dns opt.
Proof.
  unfold options_after_loop.
  destruct (daemonize opt =? 0).
  - by destruct (decide (logfile opt = lit "-")).
  - destruct (getpwnam env (user opt)) as [pw|]; [|done].
    destruct (pw =? 0); [done|]. simpl.
    destruct (getgrnam env (group opt)) as [gr|]; [|done].
    destruct (gr =? 0); [done|].
    by destruct (decide _).
Qed.

(** [options_parse_args] returns for every command line. *)
Lemma options_parse_args_returns env opt argv :
  ∃ rc opt', options_parse_args env opt argv = Ret (rc, opt')
           ∧ bootstrap_dns opt' = bootstrap_dns opt.
Proof.
  unfold options_parse_args.
  destruct (option_loop_spec (posixly_correct env)
              (S (getopt_measure (getopt_start argv)))
              (getopt_start argv) opt) as (e & -> & Hboot); [lia|].
  destruct e as [opt'|rc opt']; simpl in Hboot.
  - destruct (options_after_loop env opt') as [rc opt''] eqn:Hafter.
    exists rc, opt''. split; [done|].
    rewrite <- Hboot. change opt'' with (snd (rc, opt'')).
    rewrite <- Hafter. apply options_after_loop_bootstrap.
  - by exists rc, opt'.
Qed.

(** An unwritable log file does not change the return value: the branch
    only stores the failed descriptor. *)
Lemma options_after_loop_logfile env opt :
  daemonize opt = 0 →
  options_after_loop env opt
  = (0, set_logfd (if decide (logfile opt = lit "-") then STDOUT_FILENO
                   else open_append env (logfile opt)) opt).
Proof.
  intros Hd. unfold options_after_loop. rewrite Hd. cbn [Z.eqb].
  by destruct (decide _).
Qed.

(** An unknown or root user, when daemonizing, is reported with [-1]. *)
Lemma options_after_loop_bad_user env opt :
  daemonize opt ≠ 0 →
  getpwnam env (user opt) = None ∨ getpwnam env (user opt) = Some 0 →
  fst (options_after_loop env opt) = -1.
Proof.
  intros Hd Hu. unfold options_after_loop.
  destruct (Z.eqb_spec (daemonize opt) 0); [done|].
  by destruct Hu as [-> | ->].
Qed.

(** So is an unknown or root group. *)
Lemma options_after_loop_bad_group env opt :
  daemonize opt ≠ 0 →
  getgrnam env (group opt) = None ∨ getgrnam env (group opt) = Some 0 →
  fst (options_after_loop env opt) = -1.
Proof.
  intros Hd Hg. unfold options_after_loop.
  destruct (Z.eqb_spec (daemonize opt) 0); [done|].
  destruct (getpwnam env (user opt)) as [pw|]; [|done].
  destruct (pw =? 0); [done|]. simpl.
  by destruct Hg as [-> | ->].
Qed.

End OptionsFacts.

(** ** What a command can add to the trace *)

Section Emits.

Variable P : event → Prop.

Lemma emits_ret {A} (a : A) : emits P (ret a).
Proof. intros w. exists []. simpl. by rewrite app_nil_r. Qed.

Lemma emits_lift {A} (r : result A) : emits P (lift r).
Proof. intros w. exists []. simpl. by rewrite app_nil_r. Qed.

Lemma emits_FLOG {A} : emits P (@FLOG A).
Proof. apply emits_lift. Qed.

Lemma emits_emit e : P e → emits P (emit e).
Proof. intros He w. exists [e]. simpl. split; [done|]. by constructor. Qed.

Lemma emits_bind {A B} (m : M A) (k : A → M B) :
  emits P m → (∀ a, emits P (k a)) → emits P (bind m k).
Proof.
  intros Hm Hk w. unfold bind.
  destruct (Hm w) as (evs1 & Ht1 & HP1).
  destruct (m w) as [w1 [a| | |]]; simpl in Ht1; try by exists evs1.
  destruct (Hk a w1) as (evs2 & Ht2 & HP2).
  exists (evs1 ++ evs2). rewrite Ht2, Ht1, <- app_assoc.
  split; [done|]. by apply Forall_app.
Qed.

Lemma emits_calloc_request r :
  (∀ p, P (E_calloc_request p)) → emits P (calloc_request r).
Proof. intros HP w. eexists [_]. simpl. split; [done|]. by constructor. Qed.

Lemma emits_load_request p : emits P (load_request p).
Proof.
  intros w. exists []. unfold load_request.
  destruct (heap w !! p); simpl; by rewrite app_nil_r.
Qed.

Lemma emits_store_request p r : emits P (store_request p r).
Proof.
  intros w. exists []. unfold store_request.
  destruct (heap w !! p); simpl; by rewrite app_nil_r.
Qed.

Lemma emits_free_request p : P (E_free_request p) → emits P (free_request p).
Proof.
  intros HP w. unfold free_request. destruct (heap w !! p); simpl.
  - exists [E_free_request p]. split; [done|]. by constructor.
  - exists []. by rewrite app_nil_r.
Qed.

Lemma emits_added {A} (m : M A) w :
  emits P m → Forall P (added w (fst (m w))).
Proof.
  intros Hm. destruct (Hm w) as (evs & Ht & HP).
  unfold added. by rewrite Ht, drop_app_length.
Qed.

End Emits.

Lemma count_none f evs :
  Forall (λ e, f e = false) evs → count f evs = 0%nat.
Proof.
  induction 1 as [|e evs He Hevs IH]; [done|].
  cbn [count]. by rewrite He, IH.
Qed.

Lemma count_app f l1 l2 : count f (l1 ++ l2) = (count f l1 + count f l2)%nat.
Proof. induction l1 as [|e l1 IH]; cbn [count List.app]; [done|]. rewrite IH. lia. Qed.

Lemma added_app w evs h n :
  added w {| trace := trace w ++ evs; heap := h; next_request := n |} = evs.
Proof. unfold added. simpl. by rewrite drop_app_length. Qed.

Lemma added_same w : added w w = [].
Proof. unfold added. by rewrite drop_all. Qed.

(** ** What the callbacks and [main] emit *)

Section MainFacts.

Context `{codec : TextToDns}.

Lemma dns_server_cb_emits app server addr id flags qname type :
  emits (fetch_with (resolv app))
    (dns_server_cb app server addr id flags qname type).
Proof.
  unfold dns_server_cb.
  destruct (negb (type =? 1) || (253 <? strlen qname)); [apply emits_ret|].
  apply emits_bind; [apply emits_calloc_request; by split|]. intros p.
  apply emits_bind.
  - unfold memcpy_name. apply emits_bind; [apply emits_load_request|].
    intros req. destruct (NAME_SIZE <? _);
      [apply emits_lift|apply emits_store_request].
  - intros _. apply emits_emit. split; [done|]. by intros ??? [= _ <- _].
Qed.

Lemma https_resp_cb_emits data buf buflen :
  emits (λ e, is_poller_init e = false ∧ is_fetch e = false)
    (https_resp_cb data buf buflen).
Proof.
  unfold https_resp_cb. destruct buf as [buf|]; [|apply emits_ret].
  apply emits_bind; [destruct data; [apply emits_ret|apply emits_FLOG]|].
  intros p. apply emits_bind; [apply emits_load_request|]. intros req.
  apply emits_bind;
    [destruct (strlen_array _); [apply emits_ret|apply emits_lift]|].
  intros n. apply emits_bind;
    [destruct (scan_delimiter _ _); [apply emits_ret|apply emits_lift]|].
  intros scanned. destruct (_ <? _); [apply emits_lift|].
  destruct (text_to_dns _ _ _) as [r obuf].
  apply emits_bind; [|intros _; by apply emits_free_request].
  destruct (r <=? 0); [apply emits_ret|by apply emits_emit].
Qed.

Lemma drop_privileges_emits env opt :
  emits (λ e, is_poller_init e = false) (drop_privileges env opt).
Proof.
  unfold drop_privileges. destruct (negb _); [|apply emits_ret].
  repeat (apply emits_bind; [|intros _]);
    try (by apply emits_emit);
    destruct (negb _); first [apply emits_FLOG | apply emits_ret].
Qed.

(** Nothing [main] calls before or at [ev_run] starts the poller. *)
Lemma main_emits env argv :
  emits (λ e, is_poller_init e = false) (main env argv).
Proof.
  unfold main. apply emits_bind; [apply emits_lift|].
  intros [rc opt]. destruct (negb (rc =? 0)).
  - apply emits_bind; [by apply emits_emit|]. intros _. apply emits_lift.
  - repeat (apply emits_bind; [|intros _]);
      first [by apply emits_emit | apply drop_privileges_emits
            | apply emits_ret].
Qed.

(** [main] hands the callbacks the state built from the parsed options. *)
Lemma main_result env argv w app :
  snd (main env argv w) = Ret app →
  ∃ opt, options_parse_args env (options_init env) argv = Ret (0, opt)
       ∧ app = app_init opt.
Proof.
  unfold main, bind, lift.
  destruct (options_parse_args env (options_init env) argv)
    as [[rc opt]| | |]; try done.
  destruct (Z.eqb_spec rc 0) as [->|Hrc]; [|done]. simpl.
  unfold drop_privileges, bind, emit, FLOG, lift, ret.
  intros Hret. exists opt. split; [done|]. revert Hret.
  destruct (negb (daemonize opt =? 0)); simpl.
  - destruct (negb (sys_setgid env (gid opt) =? 0)); simpl; [done|].
    destruct (negb (sys_setuid env (uid opt) =? 0)); simpl; [done|].
    by intros [= <-].
  - by intros [= <-].
Qed.

(** A failed parse ends the process before anything is set up. *)
Lemma main_exits_on_parse_failure env argv rc opt w :
  options_parse_args env (options_init env) argv = Ret (rc, opt) →
  rc ≠ 0 →
  main env argv w
  = ({| trace := trace w ++ [E_options_show_usage]; heap := heap w;
        next_request := next_request w |}, Exit 1).
Proof.
  intros Hparse Hrc. unfold main, bind, lift. rewrite Hparse.
  by destruct (Z.eqb_spec rc 0).
Qed.

(** A successful parse without [-d] leads straight into the event loop. *)
Lemma main_enters_loop env argv opt w :
  options_parse_args env (options_init env) argv = Ret (0, opt) →
  daemonize opt = 0 →
  main env argv w
  = ({| trace := trace w ++
          [E_logging_init (logfd opt) (loglevel opt); E_curl_global_init;
           E_https_client_init;
           E_dns_server_init (listen_addr opt) (listen_port opt);
           E_ev_signal_start SIGPIPE; E_ev_signal_start SIGINT;
           E_logging_flush_init; E_ev_run];
        heap := heap w; next_request := next_request w |},
     Ret (app_init opt)).
Proof.
  intros Hparse Hd. unfold main, bind, lift. rewrite Hparse.
  unfold drop_privileges. rewrite Hd. simpl.
  by rewrite <- !app_assoc.
Qed.

End MainFacts.

(** ** A query from acceptance to completion *)

Section Pipeline.

Context `{codec : TextToDns}.

Lemma request_of_strlen server addr id qname :
  strlen (curl_escape qname) < NAME_SIZE →
  strlen_array (name (request_of server addr id qname))
  = Some (strlen (curl_escape qname)).
Proof.
  cbn [request_of name]. unfold strlen, NAME_SIZE. intros Hfit.
  destruct (Z.to_nat 254 - length (curl_escape qname))%nat as [|k] eqn:Hk;
    [lia|].
  cbn [replicate]. apply strlen_array_terminated, curl_escape_no_nul.
Qed.

(** An accepted query followed by a completion that delivers a body: the
    events are the allocation, the fetch, at most one datagram, and the
    release of the context, which is gone from the heap. *)
Lemma served_with_body app server addr id flags qname buf buflen w :
  strlen qname ≤ 253 →
  strlen (curl_escape qname) < NAME_SIZE →
  0 ≤ buflen < 2 ^ 31 →
  let p := next_request w in
  let req := request_of server addr id qname in
  ∃ w1 url,
    dns_server_cb app server addr id flags qname 1 w = (w1, Ret tt)
    ∧ https_resp_cb (Some p) (Some buf) buflen w1
      = ({| trace := trace w ++
              [E_calloc_request p; E_https_client_fetch url (resolv app) p]
              ++ replies_for req buf buflen ++ [E_free_request p];
            heap := delete p (heap w);
            next_request := S p |}, Ret tt).
Proof.
  intros Hlen Hfit Hbuflen p req.
  eexists _, _. split.
  { apply dns_server_cb_accept; [done|lia]. }
  erewrite https_resp_cb_body; cycle 1.
  - cbn [heap]. apply lookup_insert_eq.
  - by apply request_of_strlen.
  - lia.
  - unfold NAME_SIZE in Hfit. pose proof (Zle_0_nat (length (curl_escape qname))).
    unfold strlen in *. lia.
  - cbn [trace heap next_request]. f_equal. f_equal.
    + by rewrite <- !List.app_assoc.
    + by rewrite delete_insert_eq.
Qed.

End Pipeline.

(** ** The codec modelled from the spec *)

Section CodecFacts.

Import Codec.

Lemma msg_id_be16 id rest :
  0 ≤ id < 65536 → msg_id (be16 id ++ rest) = id.
Proof.
  intros Hid. unfold be16, msg_id. cbn [List.app].
  rewrite (Z.mod_small (id / 256)) by (split; [apply Z.div_pos|apply Z.div_lt_upper_bound]; lia).
  pose proof (Z.div_mod id 256). lia.
Qed.

(** Whatever the codec sends starts with the id it was given. *)
Lemma spec_text_to_dns_id t id input outlen :
  0 ≤ id < 65536 →
  let '(r, obuf) := spec_text_to_dns t id input outlen in
  0 < r → msg_id (take (Z.to_nat r) obuf) = id.
Proof.
  intros Hid. unfold spec_text_to_dns.
  destruct (split_on ":" input) as [|qname [|body [|]]]; try (intros; lia).
  destruct (parse_answer_body body) as [answers|]; [|intros; lia].
  intros _. rewrite Nat2Z.id, take_ge by done.
  unfold encode_response. by apply msg_id_be16.
Qed.

End CodecFacts.

(** * The claims of the specification *)

Section Lifecycle.

Context `{codec : TextToDns}.

(** A fetch that delivers a body releases the context exactly once and
    sends at most one datagram, whatever [text_to_dns] makes of the body. *)
Lemma context_released_once_on_body app server addr id flags qname buf buflen w :
  strlen qname ≤ 253 →
  strlen (curl_escape qname) < NAME_SIZE →
  0 ≤ buflen < 2 ^ 31 →
  heap w !! next_request w = None →
  let p := next_request w in
  let served := serve app server addr id flags qname 1 (Some buf) buflen w in
  snd served = Ret tt
  ∧ count (is_free p) (added w (fst served)) = 1%nat
  ∧ (count is_respond (added w (fst served)) ≤ 1)%nat
  ∧ heap (fst served) = heap w.
Proof.
  intros Hlen Hfit Hbuflen Hfresh p served.
  destruct (served_with_body app server addr id flags qname buf buflen w)
    as (w1 & url & Hcb & Hresp); try done.
  subst served p. unfold serve. rewrite Hcb. cbv beta iota.
  rewrite dns_server_cb_accept in Hcb by (done || lia).
  injection Hcb as <-. rewrite added_app. cbn [fetched].
  rewrite Hresp. cbn [fst snd heap]. rewrite added_app.
  split; [done|]. split; [|split; [|by apply delete_id]].
  - unfold replies_for. destruct (text_to_dns _ _ _) as [r obuf].
    destruct (r <=? 0); cbn; rewrite Nat.eqb_refl; done.
  - unfold replies_for. destruct (text_to_dns _ _ _) as [r obuf].
    destruct (r <=? 0); cbn; lia.
Qed.

(** A fetch that fails sends nothing and releases nothing: the context of
    every accepted query whose fetch fails stays on the heap. *)
Lemma context_leaked_on_failure app server addr id flags qname buflen w :
  strlen qname ≤ 253 →
  strlen (curl_escape qname) ≤ NAME_SIZE →
  let p := next_request w in
  let served := serve app server addr id flags qname 1 None buflen w in
  snd served = Ret tt
  ∧ count (is_free p) (added w (fst served)) = 0%nat
  ∧ count is_respond (added w (fst served)) = 0%nat
  ∧ heap (fst served) !! p = Some (request_of server addr id qname).
Proof.
  intros Hlen Hfit p served. subst served p. unfold serve.
  rewrite dns_server_cb_accept by done. cbv beta iota.
  rewrite added_app. cbn [fetched]. rewrite https_resp_cb_failure.
  cbn [fst snd heap]. rewrite added_app.
  split; [done|]. split; [done|]. split; [done|]. apply lookup_insert_eq.
Qed.

(** C1, at the failing input: the query for [example.com] is accepted and
    its fetch fails, so the completion callback is called with a [NULL]
    body. The callback returns without a reply, as the claim says, but it
    also returns without [free(req)]: no release is recorded and the
    context is still on the heap, where the claim has it released exactly
    once. *)
Theorem C1_failed_fetch_leaks_context :
  let served :=
    serve Examples.app_plain 0 Examples.client 4660 256
      Examples.example_com 1 None 0 world0 in
  snd served = Ret tt
  ∧ trace (fst served)
    = [E_calloc_request 0;
       E_https_client_fetch (lit "http://119.29.29.29/d?dn=example.com")
         None 0]
  ∧ count is_respond (trace (fst served)) = 0%nat
  ∧ count (is_free 0) (trace (fst served)) = 0%nat
  ∧ heap (fst served) !! 0%nat
    = Some (request_of 0 Examples.client 4660 Examples.example_com).
Proof. cbv zeta. repeat split; vm_compute; reflexivity. Qed.

End Lifecycle.

Section Bodies.

Lemma bytes_of_ext buf buf' n :
  (∀ j, 0 ≤ j < n → buf' j = buf j) → bytes_of buf' n = bytes_of buf n.
Proof.
  intros Hext. unfold bytes_of. apply map_ext_in.
  intros j [? ?]%list_elem_of_In%elem_of_seqZ. apply Hext. lia.
Qed.

(** C2, as the code has it: the callback looks at a body only up to its
    first semicolon. Two bodies that agree up to and including their first
    semicolon have the same effect, for every codec and in every world;
    and with the codec of the spec, the body
    ["93.184.216.34;93.184.216.35;"] is answered with one record, for
    [93.184.216.34]. *)
Theorem C2_body_is_cut_at_first_semicolon :
  (∀ (codec : TextToDns) data buf buflen buf' buflen' i w,
     0 ≤ i →
     i < buflen < 2 ^ 32 →
     i < buflen' < 2 ^ 32 →
     buf i = ";"%char →
     buf' i = ";"%char →
     (∀ j, 0 ≤ j < i → buf j ≠ ";"%char ∧ buf' j = buf j) →
     https_resp_cb data (Some buf') buflen' w
     = https_resp_cb data (Some buf) buflen w)
  ∧ (let w1 := Examples.accepted_world in
     let w2 := fst (@https_resp_cb (Codec.spec_text_to_dns Examples.ttl)
                      (Some 0%nat)
                      (Some (body_mem Examples.two_addresses NUL)) 28 w1) in
     codec_input (request_of 0 Examples.client 4660 Examples.example_com)
       (body_mem Examples.two_addresses NUL) 28
     = lit "example.com:93.184.216.34"
     ∧ ∃ payload,
         added w1 w2
         = [E_dns_server_respond 0 Examples.client payload;
            E_free_request 0]
         ∧ Codec.msg_ancount payload = 1
         ∧ Codec.msg_addresses payload = [[93; 184; 216; 34]]).
Proof.
  split.
  - intros codec data buf buflen buf' buflen' i w Hi Hlen Hlen' Hsemi Hsemi' Hsame.
    unfold https_resp_cb.
    rewrite (scan_delimiter_first buf buflen ltac:(lia) i) by
      (try done; try lia; intros j Hj; by apply Hsame).
    rewrite (scan_delimiter_first buf' buflen' ltac:(lia) i); cycle 1.
    { lia. } { done. }
    { intros j Hj. destruct (Hsame j Hj) as [Hne ->]. done. }
    unfold bind.
    destruct (match data with Some p => ret p | None => FLOG end w)
      as [w0 [p| | |]]; try done.
    destruct (load_request p w0) as [w1 [req| | |]]; try done.
    destruct (match strlen_array (name req) with
              | Some n => ret n
              | None => lift (Undef ArrayOverread)
              end w1) as [w2 [n| | |]]; try done.
    unfold ret. cbn [fst].
    rewrite (bytes_of_ext buf buf' i); [done|].
    intros j Hj. by apply Hsame.
  - cbv zeta. split; [vm_compute; reflexivity|].
    eexists. split; [vm_compute; reflexivity|].
    split; vm_compute; reflexivity.
Qed.

(** The bodies ["93.184.216.34;93.184.216.35;"] and
    ["93.184.216.34;10.0.0.1;"] are answered alike. *)
Lemma C2_body_is_cut_at_first_semicolon_example :
  @https_resp_cb (Codec.spec_text_to_dns Examples.ttl) (Some 0%nat)
    (Some (body_mem Examples.two_addresses' NUL)) 23 Examples.accepted_world
  = @https_resp_cb (Codec.spec_text_to_dns Examples.ttl) (Some 0%nat)
      (Some (body_mem Examples.two_addresses NUL)) 28 Examples.accepted_world.
Proof.
  apply (proj1 C2_body_is_cut_at_first_semicolon
           (Codec.spec_text_to_dns Examples.ttl) (Some 0%nat)
           (body_mem Examples.two_addresses NUL) 28
           (body_mem Examples.two_addresses' NUL) 23 13
           Examples.accepted_world);
    [lia|lia|lia|reflexivity|reflexivity|].
  intros j Hj.
  assert (j = 0 ∨ j = 1 ∨ j = 2 ∨ j = 3 ∨ j = 4 ∨ j = 5 ∨ j = 6 ∨ j = 7
          ∨ j = 8 ∨ j = 9 ∨ j = 10 ∨ j = 11 ∨ j = 12) as Hcases by lia.
  repeat (destruct Hcases as [Hj0|Hcases];
          [rewrite Hj0; split; [discriminate|reflexivity]|]).
  rewrite Hcases. split; [discriminate|reflexivity].
Defined.

(** C2 as stated fails: for the body ["93.184.216.34;93.184.216.35;"] no
    datagram that leaves the callback carries the two addresses, even with
    a codec that would encode both if it were given both. *)
Lemma C2_second_address_is_lost :
  let w1 := Examples.accepted_world in
  let w2 := fst (@https_resp_cb (Codec.spec_text_to_dns Examples.ttl)
                   (Some 0%nat)
                   (Some (body_mem Examples.two_addresses NUL)) 28 w1) in
  Codec.parse_answer_body Examples.two_addresses
  = Some [[93; 184; 216; 34]; [93; 184; 216; 35]]
  ∧ ¬ ∃ srv ra payload,
        In (E_dns_server_respond srv ra payload) (trace w2)
        ∧ Codec.msg_addresses payload
          = [[93; 184; 216; 34]; [93; 184; 216; 35]].
Proof.
  cbv zeta. split; [vm_compute; reflexivity|].
  intros (srv & ra & payload & Hin & Haddr).
  vm_compute in Hin.
  destruct Hin as [Hin|[Hin|[Hin|[Hin|[]]]]]; try discriminate Hin.
  injection Hin as _ _ <-. vm_compute in Haddr. discriminate Haddr.
Qed.

End Bodies.

Section DropInvariant.

(** C3: a decoded query whose type is not A (1), or whose name is longer
    than 253 bytes, is dropped: the callback returns with the world
    untouched, so no context is allocated, no fetch is issued and no
    reply is sent. *)
Theorem C3_drop_invariant app server addr id flags qname type w :
  type ≠ 1 ∨ 253 < strlen qname →
  let w' := fst (dns_server_cb app server addr id flags qname type w) in
  dns_server_cb app server addr id flags qname type w = (w, Ret tt)
  ∧ count is_fetch (added w w') = 0%nat
  ∧ count is_respond (added w w') = 0%nat.
Proof.
  intros Hdrop w'. subst w'.
  rewrite (dns_server_cb_drop app server addr id flags qname type w Hdrop).
  cbn [fst]. by rewrite added_same.
Qed.

(** Scenario 3 of the spec: a query of type AAAA (28). *)
Lemma C3_drop_invariant_AAAA :
  (28 ≠ 1 ∨ 253 < strlen Examples.example_com)
  ∧ dns_server_cb Examples.app_plain 0 Examples.client 4660 256
      Examples.example_com 28 world0 = (world0, Ret tt).
Proof.
  assert (H : 28 ≠ 1 ∨ 253 < strlen Examples.example_com) by (left; lia).
  split; [exact H|].
  exact (proj1 (C3_drop_invariant Examples.app_plain 0 Examples.client
                  4660 256 Examples.example_com 28 world0 H)).
Defined.

End DropInvariant.

Section ScanBound.

(** The scan never goes further than [buflen], and it reads [buf[buflen]]
    exactly when the body has no semicolon. *)
Lemma scan_reads_past_body_iff buf buflen :
  0 ≤ buflen < 2 ^ 32 →
  ∃ d reads,
    scan_delimiter buf buflen = Some (d, reads)
    ∧ Forall (λ i, 0 ≤ i ≤ buflen) reads
    ∧ (In buflen reads ↔ ∀ j, 0 ≤ j < buflen → buf j ≠ ";"%char).
Proof.
  intros Hlen.
  destruct (scan_delimiter_spec buf buflen Hlen) as (d & Hscan & Hd & Hno & Hat).
  exists d, (seqZ 0 (d + 1)). split; [done|]. split.
  { apply Forall_seqZ. intros. lia. }
  rewrite <- list_elem_of_In, elem_of_seqZ. split.
  - intros Hin j Hj. apply Hno. lia.
  - intros Hnone. destruct (decide (d = buflen)) as [->|Hne]; [lia|].
    exfalso. apply (Hnone d); [lia|]. apply Hat. lia.
Qed.

(** C4, at the failing input: a body of the seven bytes ["1.2.3.4"], with
    no semicolon in it. Whatever byte lies behind the body, the scan reads
    the indices 0 to 7: the last read is at [buflen], one past the body,
    because [buf[datalen]] is read before [datalen < buflen] is tested. *)
Theorem C4_scan_reads_one_past_body after :
  scan_delimiter (body_mem (lit "1.2.3.4") after) 7
  = Some (7, [0; 1; 2; 3; 4; 5; 6; 7]).
Proof.
  apply (scan_delimiter_no_semicolon _ 7); [lia|].
  intros j Hj.
  assert (j = 0 ∨ j = 1 ∨ j = 2 ∨ j = 3 ∨ j = 4 ∨ j = 5 ∨ j = 6) as Hcases
    by lia.
  repeat (destruct Hcases as [->|Hcases]; [discriminate|]).
  subst j. discriminate.
Qed.

End ScanBound.

Section Bootstrap.

(** C5, as the code has it: start-up never starts a bootstrap resolution,
    for any environment and command line; the application state it hands
    to the callbacks has the [NULL] resolve list, and that list is what
    every fetch of [dns_server_cb] carries. *)
Theorem C5_no_bootstrap_resolution env argv w :
  count is_poller_init (added w (fst (main env argv w))) = 0%nat
  ∧ ∀ app,
      snd (main env argv w) = Ret app →
      resolv app = None
      ∧ ∀ server addr id flags qname type w1,
          Forall (fetch_with None)
            (added w1
               (fst (dns_server_cb app server addr id flags qname type w1))).
Proof.
  split.
  - apply count_none. apply (emits_added _ (main env argv) w), main_emits.
  - intros app Hret.
    destruct (main_result env argv w app Hret) as (opt & _ & ->).
    split; [done|]. intros server addr id flags qname type w1.
    apply (emits_added (fetch_with None)).
    apply (dns_server_cb_emits (app_init opt)).
Qed.

Lemma C5_no_bootstrap_resolution_default :
  count is_poller_init
    (added world0 (fst (main Examples.env_ok [lit "dnsproxy"] world0)))
  = 0%nat.
Proof.
  exact (proj1 (C5_no_bootstrap_resolution Examples.env_ok
                  [lit "dnsproxy"] world0)).
Defined.

(** C5 as stated fails: started with no arguments, [main] enters the
    event loop without having started a bootstrap resolution, and the
    fetch for the first query carries no resolved address. *)
Lemma C5_bootstrap_is_never_triggered :
  let w := fst (main Examples.env_ok [lit "dnsproxy"] world0) in
  snd (main Examples.env_ok [lit "dnsproxy"] world0) = Ret Examples.app_plain
  ∧ In E_ev_run (trace w)
  ∧ ¬ (count is_poller_init (trace w) = 1%nat)
  ∧ In (E_https_client_fetch (lit "http://119.29.29.29/d?dn=example.com")
          None 0)
       (trace Examples.accepted_world).
Proof.
  cbv zeta. split; [vm_compute; reflexivity|].
  split; [vm_compute; tauto|]. split; [vm_compute; discriminate|].
  vm_compute. tauto.
Qed.

End Bootstrap.

Section TransactionId.

Lemma answers_query_other addr id e :
  is_respond e = false → answers_query addr id e.
Proof. intros He srv ra payload ->. discriminate He. Qed.

Lemma answers_query_replies t req buf buflen :
  0 ≤ tx_id req < 65536 →
  Forall (answers_query (raddr req) (tx_id req))
    (@replies_for (Codec.spec_text_to_dns t) req buf buflen).
Proof.
  intros Hid. unfold replies_for.
  pose proof (spec_text_to_dns_id t (tx_id req)
                (codec_input req buf buflen) obuf_size Hid) as Hmsg.
  unfold text_to_dns.
  destruct (Codec.spec_text_to_dns t _ _ _) as [r obuf].
  destruct (Z.leb_spec r 0); constructor; [|constructor].
  intros srv ra payload [= _ <- <-]. split; [done|]. apply Hmsg. lia.
Qed.

Lemma answers_query_nil addr id : Forall (answers_query addr id) [].
Proof. constructor. Qed.

(** C6: with the codec of the spec, every datagram sent while a query is
    served goes to the client of that query and carries its transaction
    id, whatever the query and however its fetch completes. A query whose
    escaped name fits the context, completed with a body, is served to the
    end. In scenario 1 (id [0x1234], answer [93.184.216.34]) exactly one
    datagram is sent, with that id, answer count 1 and that address. *)
Theorem C6_reply_keeps_transaction_id :
  (∀ t app server addr id flags qname type buf buflen w,
     0 ≤ id < 65536 →
     Forall (answers_query addr id)
       (added w
          (fst (@serve (Codec.spec_text_to_dns t) app server addr id flags
                  qname type buf buflen w))))
  ∧ (∀ t app server addr id flags qname buf buflen w,
       strlen qname ≤ 253 →
       strlen (curl_escape qname) < NAME_SIZE →
       0 ≤ buflen < 2 ^ 31 →
       snd (@serve (Codec.spec_text_to_dns t) app server addr id flags
              qname 1 (Some buf) buflen w) = Ret tt)
  ∧ (∃ payload,
       added world0
         (fst (@serve (Codec.spec_text_to_dns Examples.ttl)
                 Examples.app_plain 0 Examples.client 4660 256
                 Examples.example_com 1
                 (Some (body_mem Examples.one_address NUL)) 13 world0))
       = [E_calloc_request 0;
          E_https_client_fetch (lit "http://119.29.29.29/d?dn=example.com")
            None 0;
          E_dns_server_respond 0 Examples.client payload;
          E_free_request 0]
       ∧ Codec.msg_id payload = 4660
       ∧ Codec.msg_ancount payload = 1
       ∧ Codec.msg_addresses payload = [[93; 184; 216; 34]]).
Proof.
  split; [|split].
  - intros t app server addr id flags qname type buf buflen w Hid.
    unfold serve.
    destruct (decide (type ≠ 1 ∨ 253 < strlen qname)) as [Hdrop|Hacc].
    { rewrite (dns_server_cb_drop app server addr id flags qname type w Hdrop).
      cbv beta iota. rewrite added_same. cbn [fetched fst].
      rewrite added_same. apply answers_query_nil. }
    assert (type = 1) as -> by lia. assert (strlen qname ≤ 253) as Hlen by lia.
    destruct (Z_le_gt_dec (strlen (curl_escape qname)) NAME_SIZE) as [Hfit|Hbig].
    + rewrite dns_server_cb_accept by done. cbv beta iota.
      rewrite added_app. cbn [fetched].
      destruct buf as [b|].
      * destruct (@https_resp_cb_added (Codec.spec_text_to_dns t)
                    (next_request w) (request_of server addr id qname) b buflen
                    {| trace := trace w ++
                         [E_calloc_request (next_request w);
                          E_https_client_fetch
                            (snprintf (url_size - 1)
                               (lit "http://119.29.29.29/d?dn="
                                ++ curl_escape qname ++ extra_request_args app))
                            (resolv app) (next_request w)];
                       heap := <[next_request w
                                 := request_of server addr id qname]> (heap w);
                       next_request := S (next_request w) |})
          as (evs & Htrace & Hevs); [apply lookup_insert_eq|].
        unfold added. rewrite Htrace. cbn [trace].
        rewrite <- List.app_assoc, drop_app_length.
        apply Forall_app_2.
        { by repeat (constructor; [by apply answers_query_other|]). }
        destruct Hevs as [-> | ->]; [apply answers_query_nil|].
        apply Forall_app_2.
        { by apply (answers_query_replies t (request_of server addr id qname)). }
        by repeat (constructor; [by apply answers_query_other|]).
      * rewrite https_resp_cb_failure. cbn [fst]. rewrite added_app.
        by repeat (constructor; [by apply answers_query_other|]).
    + destruct (dns_server_cb_overflow app server addr id flags qname w)
        as [h ->]; [done|lia|].
      cbv beta iota. cbn [fst]. rewrite added_app.
      by repeat (constructor; [by apply answers_query_other|]).
  - intros t app server addr id flags qname buf buflen w Hlen Hfit Hbuflen.
    destruct (@served_with_body (Codec.spec_text_to_dns t)
                app server addr id flags qname buf buflen w)
      as (w1 & url & Hcb & Hresp); try done.
    unfold serve. rewrite Hcb. cbv beta iota.
    rewrite dns_server_cb_accept in Hcb by (done || lia).
    injection Hcb as <-. rewrite added_app. cbn [fetched].
    by rewrite Hresp.
  - eexists. split; [vm_compute; reflexivity|].
    repeat split; vm_compute; reflexivity.
Qed.

Lemma C6_reply_keeps_transaction_id_example :
  0 ≤ 4660 < 65536
  ∧ Forall (answers_query Examples.client 4660)
      (added world0
         (fst (@serve (Codec.spec_text_to_dns Examples.ttl)
                 Examples.app_plain 0 Examples.client 4660 256
                 Examples.example_com 1
                 (Some (body_mem Examples.one_address NUL)) 13 world0))).
Proof.
  assert (H : 0 ≤ 4660 < 65536) by lia.
  split; [exact H|].
  exact (proj1 C6_reply_keeps_transaction_id Examples.ttl
           Examples.app_plain 0%nat Examples.client 4660 256
           Examples.example_com 1 (Some (body_mem Examples.one_address NUL))
           13 world0 H).
Defined.

End TransactionId.

Section UpstreamUrl.

Lemma extra_request_args_app_init opt :
  extra_request_args (app_init opt)
  = match edns_client_subnet opt with
    | [] => []
    | _ :: _ => lit "&ip=" ++ take 194 (edns_client_subnet opt)
    end
  ∧ strlen (extra_request_args (app_init opt)) ≤ 198.
Proof.
  unfold app_init, strlen. cbn [extra_request_args].
  destruct (edns_client_subnet opt) as [|c subnet] eqn:Hsub.
  - split; [done|]. cbn. lia.
  - unfold snprintf, extra_args_size.
    replace (Z.to_nat (200 - 1 - 1)) with 198%nat by lia.
    split.
    + by rewrite (take_app (lit "&ip=") (c :: subnet) 198).
    + rewrite length_take. lia.
Qed.

(** C7, as the code has it: every fetch issued for an accepted query has the
    URL [http://119.29.29.29/d?dn=<escaped name>], followed by [&ip=] and
    the first 194 bytes of the client subnet when one is configured, and by
    nothing otherwise; the URL is plain [http] and is never cut. When the
    escaped name fits the context, exactly that one fetch is issued. *)
Theorem C7_upstream_url :
  let url_of opt qname :=
    lit "http://119.29.29.29/d?dn=" ++ curl_escape qname
    ++ match edns_client_subnet opt with
       | [] => []
       | _ :: _ => lit "&ip=" ++ take 194 (edns_client_subnet opt)
       end in
  (∀ opt server addr id flags qname w,
     strlen qname ≤ 253 →
     Forall (λ e, ∀ url rs p,
               e = E_https_client_fetch url rs p → url = url_of opt qname)
       (added w
          (fst (dns_server_cb (app_init opt) server addr id flags qname 1 w))))
  ∧ (∀ opt server addr id flags qname w,
       strlen qname ≤ 253 →
       strlen (curl_escape qname) ≤ NAME_SIZE →
       dns_server_cb (app_init opt) server addr id flags qname 1 w
       = ({| trace := trace w ++
               [E_calloc_request (next_request w);
                E_https_client_fetch (url_of opt qname) None (next_request w)];
             heap := <[next_request w := request_of server addr id qname]>
                       (heap w);
             next_request := S (next_request w) |}, Ret tt)).
Proof.
  intros url_of.
  assert (Haccept : ∀ opt server addr id flags qname w,
            strlen qname ≤ 253 →
            strlen (curl_escape qname) ≤ NAME_SIZE →
            dns_server_cb (app_init opt) server addr id flags qname 1 w
            = ({| trace := trace w ++
                    [E_calloc_request (next_request w);
                     E_https_client_fetch (url_of opt qname) None
                       (next_request w)];
                  heap := <[next_request w := request_of server addr id qname]>
                            (heap w);
                  next_request := S (next_request w) |}, Ret tt)).
  { intros opt server addr id flags qname w Hlen Hfit.
    rewrite dns_server_cb_accept by done.
    destruct (extra_request_args_app_init opt) as [Hextra Hextralen].
    rewrite snprintf_fits.
    - subst url_of. cbv beta. by rewrite Hextra.
    - unfold strlen, url_size, NAME_SIZE in *.
      rewrite !length_app.
      change (length (lit "http://119.29.29.29/d?dn=")) with 25%nat. lia. }
  split; [|exact Haccept].
  intros opt server addr id flags qname w Hlen.
  destruct (Z_le_gt_dec (strlen (curl_escape qname)) NAME_SIZE) as [Hfit|Hbig].
  - rewrite Haccept by done. cbn [fst]. rewrite added_app.
    constructor; [by intros ??? [=]|].
    constructor; [|constructor]. by intros ??? [= <- _ _].
  - destruct (dns_server_cb_overflow (app_init opt) server addr id flags qname w)
      as [h ->]; [done|lia|].
    cbn [fst]. rewrite added_app. constructor; [by intros ??? [=]|constructor].
Qed.

Lemma C7_upstream_url_example :
  (strlen Examples.example_com ≤ 253
   ∧ strlen (curl_escape Examples.example_com) ≤ NAME_SIZE)
  ∧ fst (dns_server_cb
           (app_init (set_edns_client_subnet (lit "203.31.0.0/16")
                        (options_init Examples.env_ok)))
           0 Examples.client 4660 256 Examples.example_com 1 world0)
    = {| trace :=
           [E_calloc_request 0;
            E_https_client_fetch
              (lit "http://119.29.29.29/d?dn=example.com&ip=203.31.0.0/16")
              None 0];
         heap := {[ 0%nat := request_of 0 Examples.client 4660
                               Examples.example_com ]};
         next_request := 1 |}.
Proof.
  assert (H1 : strlen Examples.example_com ≤ 253) by (vm_compute; discriminate).
  assert (H2 : strlen (curl_escape Examples.example_com) ≤ NAME_SIZE)
    by (vm_compute; discriminate).
  split; [done|].
  exact (f_equal fst
           (proj2 C7_upstream_url
              (set_edns_client_subnet (lit "203.31.0.0/16")
                 (options_init Examples.env_ok))
              0%nat Examples.client 4660 256 Examples.example_com world0
              H1 H2)).
Defined.

(** C7 as stated fails: started with [-e] and a subnet of 200 characters,
    the proxy does not fetch the URL that ends in [&ip=] and that subnet,
    neither over [http] nor over [https]. *)
Lemma C7_long_subnet_is_cut :
  let argv := [lit "dnsproxy"; lit "-e"; Examples.long_subnet] in
  ∃ app,
    snd (main Examples.env_ok argv world0) = Ret app
    ∧ ∀ scheme,
        scheme = lit "http" ∨ scheme = lit "https" →
        ¬ In (E_https_client_fetch
                (scheme ++ lit "://119.29.29.29/d?dn=example.com&ip="
                 ++ Examples.long_subnet) None 0)
             (trace (fst (dns_server_cb app 0 Examples.client 4660 256
                            Examples.example_com 1 world0))).
Proof.
  cbv zeta. eexists. split; [vm_compute; reflexivity|].
  intros scheme [-> | ->] Hin; vm_compute in Hin;
    destruct Hin as [Hin|[Hin|[]]]; discriminate Hin.
Qed.

End UpstreamUrl.

Section Startup.

(** With [-d], an unknown or root user or group ends the process before
    anything is set up: these two failures are fatal, as the spec says. *)
Lemma main_exits_on_bad_ids env argv opt w :
  option_loop (S (getopt_measure (getopt_start argv))) (posixly_correct env)
    (getopt_start argv) (options_init env) = Ret (LoopDone opt) →
  daemonize opt ≠ 0 →
  (getpwnam env (user opt) = None ∨ getpwnam env (user opt) = Some 0
   ∨ getgrnam env (group opt) = None ∨ getgrnam env (group opt) = Some 0) →
  snd (main env argv w) = Exit 1
  ∧ added w (fst (main env argv w)) = [E_options_show_usage].
Proof.
  intros Hloop Hd Hbad.
  assert (Hrc : fst (options_after_loop env opt) = -1).
  { destruct Hbad as [H|[H|[H|H]]];
      first [apply options_after_loop_bad_user; by auto
            |apply options_after_loop_bad_group; by auto]. }
  destruct (options_after_loop env opt) as [rc opt'] eqn:Hafter.
  cbn [fst] in Hrc. subst rc.
  rewrite (main_exits_on_parse_failure env argv (-1) opt' w).
  - cbn [fst snd]. by rewrite added_app.
  - unfold options_parse_args. by rewrite Hloop, Hafter.
  - done.
Qed.

(** C8, at the failing input: the proxy is started with [-l] and a log
    file that cannot be opened. [options_parse_args] stores the failed
    descriptor and returns 0, and [main] goes on to [ev_run], where the
    claim has the process exit before the event loop. *)
Theorem C8_unwritable_log_enters_event_loop :
  let path := lit "/nonexistent/proxy.log" in
  let argv := [lit "dnsproxy"; lit "-l"; path] in
  let started := main Examples.env_no_log argv world0 in
  open_append Examples.env_no_log path = -1
  ∧ (∃ opt,
       options_parse_args Examples.env_no_log
         (options_init Examples.env_no_log) argv = Ret (0, opt)
       ∧ logfile opt = path ∧ logfd opt = -1)
  ∧ snd started = Ret Examples.app_plain
  ∧ trace (fst started)
    = [E_logging_init (-1) 3; E_curl_global_init; E_https_client_init;
       E_dns_server_init (lit "0.0.0.0") 5353;
       E_ev_signal_start SIGPIPE; E_ev_signal_start SIGINT;
       E_logging_flush_init; E_ev_run].
Proof.
  cbv zeta. split; [reflexivity|]. split.
  - eexists. split; [vm_compute; reflexivity|]. split; reflexivity.
  - split; vm_compute; reflexivity.
Qed.

(** The sibling paths of C8: an unknown user or group, with [-d], does
    end the process with the usage text and exit code 1. *)
Example main_exits_on_unknown_user :
  main Examples.env_ok [lit "dnsproxy"; lit "-d"; lit "-u"; lit "ghost"] world0
  = ({| trace := [E_options_show_usage]; heap := ∅; next_request := 0 |},
     Exit 1).
Proof. vm_compute. reflexivity. Qed.

Example main_exits_on_unknown_group :
  main Examples.env_ok [lit "dnsproxy"; lit "-d"; lit "-g"; lit "ghosts"] world0
  = ({| trace := [E_options_show_usage]; heap := ∅; next_request := 0 |},
     Exit 1).
Proof. vm_compute. reflexivity. Qed.

End Startup.

Section NameField.

(** A name made of unreserved characters is stored as it is, and fits. *)
Lemma unreserved_name_fits qname :
  forallb isunreserved qname = true →
  strlen qname ≤ 253 →
  strlen (curl_escape qname) + 1 ≤ NAME_SIZE.
Proof.
  intros Hplain Hlen. rewrite curl_escape_unreserved by done.
  unfold NAME_SIZE. lia.
Qed.

(** C9, at the failing input: a name of two labels of 63 asterisks is 127
    bytes long and passes the check on the unescaped length; its escaped
    form is 379 bytes long, and copying it into the 254-byte [name] field
    writes past the end of the context. *)
Theorem C9_escaped_name_overruns_context :
  let accepted :=
    dns_server_cb Examples.app_plain 0 Examples.client 4660 256
      Examples.starred_name 1 world0 in
  strlen Examples.starred_name = 127
  ∧ strlen (curl_escape Examples.starred_name) = 379
  ∧ ¬ (strlen (curl_escape Examples.starred_name) + 1 ≤ NAME_SIZE)
  ∧ snd accepted = Undef HeapOverflow
  ∧ count is_fetch (trace (fst accepted)) = 0%nat.
Proof.
  cbv zeta. split; [reflexivity|]. split; [vm_compute; reflexivity|].
  split; [vm_compute; by intros H|].
  split; vm_compute; reflexivity.
Qed.

End NameField.

Section BootstrapOption.

(** C10: whenever [options_parse_args] accepts a command line,
    [bootstrap_dns] is still the default list of [options_init]; ['b'] is
    not in the option string, and a command line that starts with [-b] is
    turned down with [-1] and the options untouched. *)
Theorem C10_bootstrap_dns_never_changes env :
  (∀ argv opt,
     options_parse_args env (options_init env) argv = Ret (0, opt) →
     bootstrap_dns opt = default_bootstrap_dns)
  ∧ optstring_find "b" OPTSTRING = None
  ∧ (∀ prog optarg rest,
       options_parse_args env (options_init env)
         (prog :: lit "-b" :: optarg :: rest)
       = Ret (-1, options_init env)).
Proof.
  split; [|split; [reflexivity|]].
  - intros argv opt Hparse.
    destruct (options_parse_args_returns env (options_init env) argv)
      as (rc & opt' & Hret & Hboot).
    rewrite Hret in Hparse. injection Hparse as _ <-. exact Hboot.
  - intros prog optarg rest. reflexivity.
Qed.

Lemma C10_bootstrap_dns_never_changes_example :
  options_parse_args Examples.env_ok (options_init Examples.env_ok)
    [lit "dnsproxy"; lit "-p"; lit "5300"; lit "-v"]
  = Ret (0, set_logfd 1 (set_loglevel 2 (set_listen_port 5300
              (options_init Examples.env_ok))))
  ∧ bootstrap_dns (set_logfd 1 (set_loglevel 2 (set_listen_port 5300
              (options_init Examples.env_ok))))
    = default_bootstrap_dns.
Proof.
  assert (H : options_parse_args Examples.env_ok (options_init Examples.env_ok)
                [lit "dnsproxy"; lit "-p"; lit "5300"; lit "-v"]
              = Ret (0, set_logfd 1 (set_loglevel 2 (set_listen_port 5300
                          (options_init Examples.env_ok)))))
    by (vm_compute; reflexivity).
  split; [exact H|].
  exact (proj1 (C10_bootstrap_dns_never_changes Examples.env_ok) _ _ H).
Defined.

End BootstrapOption.


(** * Further properties of the code *)

(** ** The option loop, whatever its fuel *)

Section OptionLoop.

Variable posix : bool.

Lemma option_loop_fuel_mono fuel :
  ∀ st opt e fuel',
    option_loop fuel posix st opt = Ret e →
    (fuel ≤ fuel')%nat →
    option_loop fuel' posix st opt = Ret e.
Proof.
  induction fuel as [|fuel IH]; intros st opt e fuel' Hrun Hle; [done|].
  destruct fuel' as [|fuel']; [lia|].
  cbn [option_loop] in *.
  destruct (getopt posix OPTSTRING st) as [[|c a] st']; [done|].
  destruct (option_case c a opt) as [[opt'|rc opt']| | |]; try done.
  apply (IH _ _ _ _ Hrun). lia.
Qed.

(** With more fuel than the scanning position needs, the loop does what
    [options_parse_args] makes it do. *)
Lemma option_loop_enough fuel st opt :
  (getopt_measure st < fuel)%nat →
  option_loop fuel posix st opt = parse_loop posix st opt.
Proof.
  intros Hfuel. unfold parse_loop.
  destruct (option_loop_spec posix (S (getopt_measure st)) st opt)
    as (e & Hrun & _); [lia|].
  rewrite Hrun. apply (option_loop_fuel_mono _ _ _ _ _ Hrun). lia.
Qed.

(** One turn of the loop that ends the options. *)
Lemma parse_loop_end st st' opt :
  getopt posix OPTSTRING st = (GetoptEnd, st') →
  parse_loop posix st opt = Ret (LoopDone opt).
Proof. intros Hget. unfold parse_loop. cbn [option_loop]. by rewrite Hget. Qed.

(** One turn of the loop that handles an option and goes on. *)
Lemma parse_loop_step st c a st' opt opt' :
  getopt posix OPTSTRING st = (GetoptChar c a, st') →
  option_case c a opt = Ret (LoopDone opt') →
  parse_loop posix st opt = parse_loop posix st' opt'.
Proof.
  intros Hget Hcase. unfold parse_loop at 1. cbn [option_loop].
  rewrite Hget, Hcase. apply option_loop_enough.
  by apply (getopt_measure_decreases _ _ _ _ _ Hget).
Qed.

(** One turn of the loop that returns from the function. *)
Lemma parse_loop_return st c a st' opt rc opt' :
  getopt posix OPTSTRING st = (GetoptChar c a, st') →
  option_case c a opt = Ret (LoopReturn rc opt') →
  parse_loop posix st opt = Ret (LoopReturn rc opt').
Proof.
  intros Hget Hcase. unfold parse_loop. cbn [option_loop].
  by rewrite Hget, Hcase.
Qed.

(** A [return] inside the [switch] always returns [-1], with the options
    as they were before the offending character. *)
Lemma option_case_exit c a opt e :
  returnable c →
  option_case c a opt = Ret e →
  (∃ opt', e = LoopDone opt') ∨ e = LoopReturn (-1) opt.
Proof.
  intros [->|[Hin Hcolon]].
  - intros [= <-]. by right.
  - unfold OPTSTRING, lit in Hin. simpl in Hin.
    repeat (destruct Hin as [<-|Hin];
            [first [done
                   |intros [= <-]; by right
                   |intros [= <-]; left; by eexists]|]).
    destruct Hin.
Qed.

Lemma option_case_keeps c a opt e :
  option_case c a opt = Ret e → loop_keeps opt (exit_opt e).
Proof.
  unfold option_case.
  repeat (destruct (Ascii.eqb c _); [by intros [= <-]|]). done.
Qed.

Lemma option_loop_exit fuel :
  ∀ st opt e,
    option_loop fuel posix st opt = Ret e →
    loop_keeps opt (exit_opt e)
    ∧ ∀ rc opt', e = LoopReturn rc opt' → rc = -1.
Proof.
  induction fuel as [|fuel IH]; intros st opt e Hrun; [done|].
  cbn [option_loop] in Hrun.
  destruct (getopt posix OPTSTRING st) as [[|c a] st'] eqn:Hget.
  { injection Hrun as <-. split; [done|]. by intros ?? [=]. }
  pose proof (getopt_returnable _ _ _ _ _ Hget) as Hc.
  destruct (option_case c a opt) as [[opt1|rc1 opt1]| | |] eqn:Hcase;
    try done.
  - destruct (IH _ _ _ Hrun) as [(Hu & Hg & Hl) Hrc].
    destruct (option_case_keeps _ _ _ _ Hcase) as (Hu1 & Hg1 & Hl1).
    cbn [exit_opt] in *. split; [|done]. unfold loop_keeps. by rewrite Hu, Hg, Hl.
  - injection Hrun as <-.
    split; [by apply (option_case_keeps _ _ _ _ Hcase)|].
    intros rc opt' [= <- <-].
    destruct (option_case_exit _ _ _ _ Hc Hcase) as [[o [=]]|[= -> _]]. done.
Qed.

End OptionLoop.

(** [options_parse_args] in terms of the loop and the code after it. *)
Lemma options_parse_args_unfold env opt argv :
  options_parse_args env opt argv
  = match parse_loop (posixly_correct env) (getopt_start argv) opt with
    | Ret (LoopDone opt) => Ret (options_after_loop env opt)
    | Ret (LoopReturn rc opt) => Ret (rc, opt)
    | Exit c => Exit c
    | Undef u => Undef u
    | OutOfFuel => OutOfFuel
    end.
Proof. reflexivity. Qed.

Lemma options_after_loop_rc env opt :
  fst (options_after_loop env opt) = 0 ∨ fst (options_after_loop env opt) = -1.
Proof.
  unfold options_after_loop.
  destruct (daemonize opt =? 0).
  - destruct (decide _); by left.
  - destruct (getpwnam env (user opt)) as [pw|]; [|by right].
    destruct (pw =? 0); [by right|]. cbn zeta.
    destruct (getgrnam env _) as [gr|]; [|by right].
    destruct (gr =? 0); [by right|].
    destruct (decide _); by left.
Qed.

(** What a successful parse went through: the loop ran to its end, and the
    code after it found nothing to complain about. *)
Lemma options_parse_args_accepted env opt argv opt' :
  options_parse_args env opt argv = Ret (0, opt') →
  ∃ o, parse_loop (posixly_correct env) (getopt_start argv) opt
       = Ret (LoopDone o)
     ∧ loop_keeps opt o
     ∧ options_after_loop env o = (0, opt').
Proof.
  rewrite options_parse_args_unfold.
  destruct (parse_loop _ _ _) as [[o|rc o]| | |] eqn:Hloop; try done.
  - intros [= Hafter]. exists o. split; [done|]. split; [|done].
    by apply (option_loop_exit _ _ _ _ _ Hloop).
  - intros [= -> ->].
    destruct (option_loop_exit _ _ _ _ _ Hloop) as [_ Hrc].
    by specialize (Hrc _ _ eq_refl).
Qed.

(** ** options.c: what a command line does *)

Section CommandLines.

Lemma options_after_loop_accepted env o opt' :
  options_after_loop env o = (0, opt') →
  (daemonize o = 0 ∧ opt' = set_logfd (logfd_for env (logfile o)) o)
  ∨ (daemonize o ≠ 0
     ∧ ∃ pw gr,
         getpwnam env (user o) = Some pw ∧ pw ≠ 0
         ∧ getgrnam env (group o) = Some gr ∧ gr ≠ 0
         ∧ opt' = set_logfd (logfd_for env (logfile o))
                    (set_gid gr (set_uid pw o))).
Proof.
  unfold options_after_loop, logfd_for.
  destruct (Z.eqb_spec (daemonize o) 0) as [Hd|Hd].
  - intros Hafter. left. split; [done|].
    destruct (decide _); by injection Hafter as <-.
  - destruct (getpwnam env (user o)) as [pw|]; [|done].
    destruct (Z.eqb_spec pw 0) as [|Hpw]; [done|]. cbn zeta.
    change (group (set_uid pw o)) with (group o).
    destruct (getgrnam env (group o)) as [gr|]; [|done].
    destruct (Z.eqb_spec gr 0) as [|Hgr]; [done|].
    intros Hafter. right. split; [done|]. exists pw, gr.
    repeat (split; [done|]).
    change (logfile (set_gid gr (set_uid pw o))) with (logfile o) in Hafter.
    destruct (decide _); by injection Hafter as <-.
Qed.

(** X1: [options_parse_args] returns for every command line, with 0 or
    with -1: the option loop ends, and the [exit] in the [default] branch of
    the [switch] is never reached. *)
Theorem options_parse_args_returns_0_or_minus_1 env opt argv :
  ∃ rc opt',
    options_parse_args env opt argv = Ret (rc, opt') ∧ (rc = 0 ∨ rc = -1).
Proof.
  rewrite options_parse_args_unfold. unfold parse_loop.
  destruct (option_loop_spec (posixly_correct env)
              (S (getopt_measure (getopt_start argv)))
              (getopt_start argv) opt) as (e & Hrun & _); [lia|].
  rewrite Hrun. destruct e as [o|rc o].
  - destruct (options_after_loop env o) as [rc opt'] eqn:Hafter.
    exists rc, opt'. split; [done|].
    pose proof (options_after_loop_rc env o) as Hrc.
    by rewrite Hafter in Hrc.
  - exists rc, o. split; [done|]. right.
    by apply (proj2 (option_loop_exit _ _ _ _ _ Hrun) rc o).
Qed.

Lemma next_cluster_option posix c cs rest :
  "-"%char :: c :: cs ≠ lit "--" →
  next_cluster posix (("-"%char :: c :: cs) :: rest) = Some (c, cs, rest).
Proof. intros Hne. cbn [next_cluster]. by destruct (decide _). Qed.

Lemma getopt_start_option posix prog c cs rest :
  "-"%char :: c :: cs ≠ lit "--" →
  getopt posix OPTSTRING (getopt_start (prog :: ("-"%char :: c :: cs) :: rest))
  = getopt_char OPTSTRING c cs rest.
Proof.
  intros Hne. unfold getopt, getopt_start. cbn [nextchar unread tail].
  by rewrite next_cluster_option.
Qed.

Lemma getopt_char_reject c cs rest :
  ¬ In c option_letters →
  ∃ c' a st',
    getopt_char OPTSTRING c cs rest = (GetoptChar c' a, st')
    ∧ (c' = "?"%char ∨ c' = "h"%char).
Proof.
  intros Hout. unfold getopt_char.
  destruct (Ascii.eqb_spec c ":") as [->|Hcolon]; [by eauto 6|].
  destruct (optstring_find c OPTSTRING) as [b|] eqn:Hfind; [|by eauto 6].
  pose proof (optstring_find_In _ _ _ Hfind) as Hin.
  unfold OPTSTRING, lit in Hin. simpl in Hin.
  repeat (destruct Hin as [<-|Hin];
          [first [done
                 |exfalso; apply Hout; vm_compute; tauto
                 |injection Hfind as <-; by eauto 6]|]).
  destruct Hin.
Qed.

(** X2: a command line whose first option character is none of
    [a p e d u g t l v x] (so also [-h], [-b] and [-?]) is turned down with
    -1 and the options untouched, and [main] prints the usage and exits
    with status 1 before anything is set up. *)
Theorem first_option_rejected env prog c cs rest w :
  ¬ In c option_letters →
  "-"%char :: c :: cs ≠ lit "--" →
  let argv := prog :: ("-"%char :: c :: cs) :: rest in
  (∀ opt, options_parse_args env opt argv = Ret (-1, opt))
  ∧ main env argv w
    = ({| trace := trace w ++ [E_options_show_usage]; heap := heap w;
          next_request := next_request w |}, Exit 1).
Proof.
  intros Hout Hne argv.
  assert (Hparse : ∀ opt, options_parse_args env opt argv = Ret (-1, opt)).
  { intros opt. rewrite options_parse_args_unfold.
    destruct (getopt_char_reject c cs rest Hout) as (c' & a & st' & Hget & Hc').
    rewrite (parse_loop_return (posixly_correct env) _ c' a st' opt (-1) opt);
      [done| |by destruct Hc' as [-> | ->]].
    subst argv. by rewrite getopt_start_option. }
  split; [exact Hparse|].
  by apply (main_exits_on_parse_failure env argv (-1) (options_init env)).
Qed.

Lemma first_option_rejected_help :
  (¬ In "h"%char option_letters ∧ lit "-h" ≠ lit "--")
  ∧ main Examples.env_ok [lit "dnsproxy"; lit "-h"] world0
    = ({| trace := [E_options_show_usage]; heap := ∅; next_request := 0 |},
       Exit 1).
Proof.
  assert (H1 : ¬ In "h"%char option_letters).
  { intros H. vm_compute in H.
    repeat (destruct H as [H|H]; [discriminate H|]). destruct H. }
  assert (H2 : lit "-h" ≠ lit "--") by discriminate.
  split; [done|].
  exact (proj2 (first_option_rejected Examples.env_ok (lit "dnsproxy")
                  "h"%char [] [] world0 H1 H2)).
Defined.



(** X4: the user and group are looked up exactly when the accepted command
    line daemonizes. Without [-d] the ids keep their initial -1; with [-d]
    they are the ids of the configured user and group, and neither is 0:
    the proxy never daemonizes as root. *)
Theorem ids_follow_daemonize env argv opt :
  options_parse_args env (options_init env) argv = Ret (0, opt) →
  (daemonize opt = 0 → uid opt = -1 ∧ gid opt = -1)
  ∧ (daemonize opt ≠ 0 →
     getpwnam env (user opt) = Some (uid opt) ∧ uid opt ≠ 0
     ∧ getgrnam env (group opt) = Some (gid opt) ∧ gid opt ≠ 0).
Proof.
  intros Hparse.
  destruct (options_parse_args_accepted _ _ _ _ Hparse)
    as (o & _ & (Hu & Hg & _) & Hafter).
  destruct (options_after_loop_accepted _ _ _ Hafter)
    as [[Hd ->]|(Hd & pw & gr & Hpw & Hpw0 & Hgr & Hgr0 & ->)].
  - split; [|done]. intros _. cbn. by rewrite Hu, Hg.
  - split; [done|]. intros _. cbn. done.
Qed.

Lemma ids_follow_daemonize_nobody :
  let opt :=
    set_logfd 1 (set_gid 65534 (set_uid 65534
      (set_daemonize 1 (options_init Examples.env_ok)))) in
  options_parse_args Examples.env_ok (options_init Examples.env_ok)
    [lit "dnsproxy"; lit "-d"] = Ret (0, opt)
  ∧ (daemonize opt ≠ 0 →
     getpwnam Examples.env_ok (user opt) = Some (uid opt) ∧ uid opt ≠ 0
     ∧ getgrnam Examples.env_ok (group opt) = Some (gid opt) ∧ gid opt ≠ 0).
Proof.
  cbv zeta.
  assert (H : options_parse_args Examples.env_ok (options_init Examples.env_ok)
                [lit "dnsproxy"; lit "-d"]
              = Ret (0, set_logfd 1 (set_gid 65534 (set_uid 65534
                         (set_daemonize 1 (options_init Examples.env_ok))))))
    by (vm_compute; reflexivity).
  split; [exact H|].
  exact (proj2 (ids_follow_daemonize Examples.env_ok _ _ H)).
Defined.

(** X5: after an accepted command line, [logfd] is standard output when the
    log file is ["-"] and whatever [open] returned otherwise, and
    [options_cleanup] closes exactly that descriptor when it is positive:
    standard output itself for ["-"], nothing after a failed [open]. *)
Theorem cleanup_closes_the_log_descriptor env opt0 argv opt :
  options_parse_args env opt0 argv = Ret (0, opt) →
  logfd opt = logfd_for env (logfile opt)
  ∧ options_cleanup opt
    = (if 0 <? logfd_for env (logfile opt)
       then [logfd_for env (logfile opt)] else [])
  ∧ (logfile opt = lit "-" → options_cleanup opt = [1])
  ∧ (logfile opt ≠ lit "-" → open_append env (logfile opt) ≤ 0 →
     options_cleanup opt = []).
Proof.
  intros Hparse.
  destruct (options_parse_args_accepted _ _ _ _ Hparse) as (o & _ & _ & Hafter).
  assert (Hfd : logfd opt = logfd_for env (logfile opt)).
  { destruct (options_after_loop_accepted _ _ _ Hafter)
      as [[_ ->]|(_ & pw & gr & _ & _ & _ & _ & ->)]; done. }
  unfold options_cleanup. rewrite Hfd. split; [done|]. split; [done|].
  unfold logfd_for. split.
  - intros ->. by destruct (decide _).
  - intros Hfile Hopen. destruct (decide _); [done|].
    by destruct (Z.ltb_spec 0 (open_append env (logfile opt))); [lia|].
Qed.

Lemma cleanup_closes_the_log_descriptor_stdout :
  options_parse_args Examples.env_ok (options_init Examples.env_ok)
    [lit "dnsproxy"]
  = Ret (0, set_logfd 1 (options_init Examples.env_ok))
  ∧ options_cleanup (set_logfd 1 (options_init Examples.env_ok)) = [1].
Proof.
  assert (H : options_parse_args Examples.env_ok (options_init Examples.env_ok)
                [lit "dnsproxy"]
              = Ret (0, set_logfd 1 (options_init Examples.env_ok)))
    by (vm_compute; reflexivity).
  split; [exact H|].
  exact (proj1 (proj2 (proj2 (cleanup_closes_the_log_descriptor
                   Examples.env_ok _ _ _ H))) eq_refl).
Defined.

End CommandLines.

Section OptionSyntax.


Lemma verbose_words posix k :
  ∀ base l,
    parse_loop posix {| nextchar := []; unread := replicate k (lit "-v") |}
      (set_loglevel l base)
    = Ret (LoopDone (set_loglevel (l - Z.of_nat k) base)).
Proof.
  induction k as [|k IH]; intros base l.
  - rewrite (parse_loop_end posix _ {| nextchar := []; unread := [] |});
      [|done].
    by rewrite Z.sub_0_r.
  - rewrite (parse_loop_step posix _ "v"%char []
               {| nextchar := []; unread := replicate k (lit "-v") |}
               _ (set_loglevel (l - 1) base)); [|done|done].
    rewrite IH. do 3 f_equal. lia.
Qed.

Lemma verbose_cluster posix k :
  ∀ base l,
    parse_loop posix {| nextchar := replicate k "v"%char; unread := [] |}
      (set_loglevel l base)
    = Ret (LoopDone (set_loglevel (l - Z.of_nat k) base)).
Proof.
  induction k as [|k IH]; intros base l.
  - rewrite (parse_loop_end posix _ {| nextchar := []; unread := [] |});
      [|done].
    by rewrite Z.sub_0_r.
  - rewrite (parse_loop_step posix _ "v"%char []
               {| nextchar := replicate k "v"%char; unread := [] |}
               _ (set_loglevel (l - 1) base)); [|done|done].
    rewrite IH. do 3 f_equal. lia.
Qed.

(** X6: every [-v] lowers the log level by one, without a lower bound:
    [k] words [-v], or one word of a dash and [k] letters [v], leave the
    level at [LOG_ERROR - k], and the command line is accepted. *)
Theorem verbosity_accumulates env prog k :
  let expected :=
    Ret (0, set_logfd STDOUT_FILENO
              (set_loglevel (LOG_ERROR env - Z.of_nat k) (options_init env))) in
  options_parse_args env (options_init env) (prog :: replicate k (lit "-v"))
  = expected
  ∧ ((0 < k)%nat →
     options_parse_args env (options_init env)
       [prog; "-"%char :: replicate k "v"%char]
     = expected).
Proof.
  cbv zeta. split.
  - rewrite options_parse_args_unfold. unfold getopt_start. cbn [tail].
    change (options_init env)
      with (set_loglevel (LOG_ERROR env) (options_init env)) at 1.
    by rewrite verbose_words.
  - intros Hk. destruct k as [|k]; [lia|].
    rewrite options_parse_args_unfold.
    change (options_init env)
      with (set_loglevel (LOG_ERROR env) (options_init env)) at 1.
    rewrite (parse_loop_step (posixly_correct env) _ "v"%char []
               {| nextchar := replicate k "v"%char; unread := [] |}
               _ (set_loglevel (LOG_ERROR env - 1) (options_init env)));
      [|etrans; [apply (getopt_start_option _ prog "v"%char
                             (replicate k "v"%char) []); discriminate|done]
       |done].
    rewrite verbose_cluster.
    replace (LOG_ERROR env - 1 - Z.of_nat k)
      with (LOG_ERROR env - Z.of_nat (S k)) by lia.
    done.
Qed.

Lemma verbosity_accumulates_five :
  (0 < 5)%nat
  ∧ options_parse_args Examples.env_ok (options_init Examples.env_ok)
      [lit "dnsproxy"; lit "-vvvvv"]
    = Ret (0, set_logfd 1 (set_loglevel (-2) (options_init Examples.env_ok))).
Proof.
  assert (H : (0 < 5)%nat) by lia.
  split; [exact H|].
  exact (proj2 (verbosity_accumulates Examples.env_ok (lit "dnsproxy") 5) H).
Defined.






End OptionSyntax.

(** ** main.c: the order of start-up *)

Section StartupOrder.



End StartupOrder.

(** ** main.c: the callbacks on their own and together *)

Lemma bytes_of_no_semicolon buf d :
  (∀ j, 0 ≤ j < d → buf j ≠ ";"%char) →
  Forall (λ c, c ≠ ";"%char) (bytes_of buf d).
Proof.
  intros Hno. unfold bytes_of. apply Forall_fmap, Forall_seqZ.
  intros j Hj. apply Hno. lia.
Qed.

(** X10: the delimiter scan ends for every body, at the first semicolon
    among its [buflen] bytes or else at [buflen]; its counter never wraps.
    The record that is copied out is the part of the body before that
    point: at most [buflen] bytes, none of them a semicolon. *)
Theorem scan_stops_at_first_semicolon buf buflen :
  0 ≤ buflen < 2 ^ 32 →
  ∃ d reads,
    scan_delimiter buf buflen = Some (d, reads)
    ∧ 0 ≤ d ≤ buflen
    ∧ (d < buflen → buf d = ";"%char)
    ∧ length (bytes_of buf d) = Z.to_nat d
    ∧ Forall (λ c, c ≠ ";"%char) (bytes_of buf d).
Proof.
  intros Hlen.
  destruct (scan_delimiter_spec buf buflen Hlen) as (d & Hscan & Hd & Hno & Hat).
  exists d, (seqZ 0 (d + 1)). split; [done|]. split; [done|]. split; [done|].
  split; [|by apply bytes_of_no_semicolon].
  unfold bytes_of. by rewrite length_map, length_seqZ.
Qed.

Lemma scan_stops_at_first_semicolon_example :
  0 ≤ 14 < 2 ^ 32
  ∧ ∃ d reads,
      scan_delimiter MoreExamples.body_a 14 = Some (d, reads)
      ∧ 0 ≤ d ≤ 14
      ∧ (d < 14 → MoreExamples.body_a d = ";"%char)
      ∧ length (bytes_of MoreExamples.body_a d) = Z.to_nat d
      ∧ Forall (λ c, c ≠ ";"%char) (bytes_of MoreExamples.body_a d).
Proof.
  assert (H : 0 ≤ 14 < 2 ^ 32) by lia.
  split; [exact H|].
  exact (scan_stops_at_first_semicolon MoreExamples.body_a 14 H).
Defined.

(** The stored name of an accepted query reads back as the escaped name. *)
Lemma request_of_name server addr id qname :
  strlen (curl_escape qname) < NAME_SIZE →
  until_nul (name (request_of server addr id qname)) = curl_escape qname.
Proof.
  intros Hfit.
  destruct (strlen_array_take _ _ (request_of_strlen server addr id qname Hfit))
    as (_ & -> & _).
  cbn [request_of name]. unfold strlen. rewrite Nat2Z.id.
  by rewrite take_app_length.
Qed.

(** X11: what one served query amounts to, for any [text_to_dns]. For an
    accepted query whose escaped name fits the context, answered by a body
    with no NUL in its first record, [text_to_dns] is called with the id of
    the query, the text [<escaped name>:<first record>] and room for 1500
    bytes; when it returns [r > 0] the first [r] bytes it wrote go to the
    client of the query, and otherwise nothing is sent. Either way the
    context is allocated, handed to the one fetch, and freed. *)
Theorem one_query_served `{codec : TextToDns} app server addr id flags qname
    buf buflen w :
  strlen qname ≤ 253 →
  strlen (curl_escape qname) < NAME_SIZE →
  0 ≤ buflen < 2 ^ 31 →
  (∀ j, 0 ≤ j < datalen_of buf buflen → buf j ≠ NUL) →
  let p := next_request w in
  let input :=
    curl_escape qname ++ ":"%char :: bytes_of buf (datalen_of buf buflen) in
  let r := fst (text_to_dns id input obuf_size) in
  let obuf := snd (text_to_dns id input obuf_size) in
  serve app server addr id flags qname 1 (Some buf) buflen w
  = ({| trace := trace w ++
          [E_calloc_request p;
           E_https_client_fetch
             (snprintf (url_size - 1)
                (lit "http://119.29.29.29/d?dn=" ++ curl_escape qname
                 ++ extra_request_args app))
             (resolv app) p]
          ++ (if r <=? 0 then []
              else [E_dns_server_respond server addr (take (Z.to_nat r) obuf)])
          ++ [E_free_request p];
        heap := delete p (heap w);
        next_request := S p |}, Ret tt).
Proof.
  intros Hlen Hfit Hbuflen Hnul p input r obuf.
  assert (Hinput : codec_input (request_of server addr id qname) buf buflen
                   = input).
  { unfold codec_input. rewrite request_of_name by done.
    apply until_nul_id.
    apply Forall_app_2; [apply curl_escape_no_nul|].
    constructor; [discriminate|].
    unfold bytes_of. apply Forall_fmap, Forall_seqZ.
    intros j Hj. apply Hnul. lia. }
  unfold serve. rewrite dns_server_cb_accept by (done || lia).
  cbv beta iota. rewrite added_app. cbn [fetched].
  erewrite https_resp_cb_body; cycle 1.
  - cbn [heap]. apply lookup_insert_eq.
  - by apply request_of_strlen.
  - lia.
  - unfold NAME_SIZE in Hfit. pose proof (Zle_0_nat (length (curl_escape qname))).
    unfold strlen in *. lia.
  - cbn [trace heap next_request]. f_equal. f_equal.
    + rewrite <- !List.app_assoc. cbn [List.app]. do 3 f_equal.
      unfold replies_for. rewrite Hinput.
      cbn [request_of tx_id dns_server raddr]. subst r obuf.
      by destruct (text_to_dns id input obuf_size).
    + by rewrite delete_insert_eq.
Qed.

Lemma one_query_served_example :
  (strlen Examples.example_com ≤ 253
   ∧ strlen (curl_escape Examples.example_com) < NAME_SIZE
   ∧ 0 ≤ 14 < 2 ^ 31
   ∧ ∀ j, 0 ≤ j < datalen_of MoreExamples.body_a 14 →
          MoreExamples.body_a j ≠ NUL)
  ∧ snd (@serve (Codec.spec_text_to_dns Examples.ttl) Examples.app_plain 0
           Examples.client 4660 256 Examples.example_com 1
           (Some MoreExamples.body_a) 14 world0) = Ret tt.
Proof.
  assert (H1 : strlen Examples.example_com ≤ 253) by (vm_compute; discriminate).
  assert (H2 : strlen (curl_escape Examples.example_com) < NAME_SIZE)
    by (vm_compute; reflexivity).
  assert (H3 : 0 ≤ 14 < 2 ^ 31) by lia.
  assert (H4 : ∀ j, 0 ≤ j < datalen_of MoreExamples.body_a 14 →
                    MoreExamples.body_a j ≠ NUL).
  { change (datalen_of MoreExamples.body_a 14) with 13. intros j Hj.
    assert (j = 0 ∨ j = 1 ∨ j = 2 ∨ j = 3 ∨ j = 4 ∨ j = 5 ∨ j = 6 ∨ j = 7
            ∨ j = 8 ∨ j = 9 ∨ j = 10 ∨ j = 11 ∨ j = 12) as Hcases by lia.
    repeat (destruct Hcases as [Hj0|Hcases]; [rewrite Hj0; discriminate|]).
    rewrite Hcases. discriminate. }
  split; [done|].
  exact (f_equal snd
           (@one_query_served (Codec.spec_text_to_dns Examples.ttl)
              Examples.app_plain 0%nat Examples.client 4660 256
              Examples.example_com MoreExamples.body_a 14 world0
              H1 H2 H3 H4)).
Defined.




(** X13: fetches may complete in any order. For two live contexts, the
    completion of one and then the other sends the same datagrams and frees
    the same contexts as the opposite order, and leaves the same heap; only
    the order of the events differs. *)
Theorem completions_commute `{codec : TextToDns} p q reqp reqq np nq
    bufp lenp bufq lenq w :
  p ≠ q →
  heap w !! p = Some reqp →
  heap w !! q = Some reqq →
  strlen_array (name reqp) = Some np →
  strlen_array (name reqq) = Some nq →
  0 ≤ lenp ∧ np + lenp + 2 < 2 ^ 32 →
  0 ≤ lenq ∧ nq + lenq + 2 < 2 ^ 32 →
  let complete r buf len := https_resp_cb (Some r) (Some buf) len in
  let p_then_q := complete q bufq lenq (fst (complete p bufp lenp w)) in
  let q_then_p := complete p bufp lenp (fst (complete q bufq lenq w)) in
  snd p_then_q = Ret tt
  ∧ snd q_then_p = Ret tt
  ∧ heap (fst p_then_q) = heap (fst q_then_p)
  ∧ added w (fst p_then_q)
    = (replies_for reqp bufp lenp ++ [E_free_request p])
      ++ (replies_for reqq bufq lenq ++ [E_free_request q])
  ∧ added w (fst q_then_p)
    = (replies_for reqq bufq lenq ++ [E_free_request q])
      ++ (replies_for reqp bufp lenp ++ [E_free_request p]).
Proof.
  intros Hpq Hp Hq Hnp Hnq [Hlp Hsp] [Hlq Hsq]. cbv beta zeta.
  rewrite (https_resp_cb_body p reqp np bufp lenp w) by done.
  rewrite (https_resp_cb_body q reqq nq bufq lenq w) by done.
  cbn [fst].
  rewrite (https_resp_cb_body q reqq nq bufq lenq)
    by (try done; cbn [heap]; by rewrite lookup_delete_ne).
  rewrite (https_resp_cb_body p reqp np bufp lenp)
    by (try done; cbn [heap]; by rewrite lookup_delete_ne).
  cbn [fst snd heap trace].
  split; [done|]. split; [done|]. split; [apply delete_delete|].
  unfold added. cbn [trace].
  split; rewrite <- !List.app_assoc; by rewrite drop_app_length.
Qed.

Lemma completions_commute_example :
  let codec := Codec.spec_text_to_dns Examples.ttl in
  let w := MoreExamples.two_pending in
  let reqp := request_of 0 Examples.client 4660 Examples.example_com in
  let reqq := request_of 0 MoreExamples.other_client 22136
                MoreExamples.example_org in
  (0%nat ≠ 1%nat
   ∧ heap w !! 0%nat = Some reqp
   ∧ heap w !! 1%nat = Some reqq
   ∧ strlen_array (name reqp) = Some 11
   ∧ strlen_array (name reqq) = Some 11
   ∧ (0 ≤ 14 ∧ 11 + 14 + 2 < 2 ^ 32)
   ∧ (0 ≤ 8 ∧ 11 + 8 + 2 < 2 ^ 32))
  ∧ heap (fst (@https_resp_cb codec (Some 1%nat) (Some MoreExamples.body_b) 8
                 (fst (@https_resp_cb codec (Some 0%nat)
                         (Some MoreExamples.body_a) 14 w))))
    = heap (fst (@https_resp_cb codec (Some 0%nat) (Some MoreExamples.body_a) 14
                   (fst (@https_resp_cb codec (Some 1%nat)
                           (Some MoreExamples.body_b) 8 w)))).
Proof.
  cbv zeta.
  assert (H0 : 0%nat ≠ 1%nat) by discriminate.
  assert (H1 : heap MoreExamples.two_pending !! 0%nat
               = Some (request_of 0 Examples.client 4660 Examples.example_com))
    by (vm_compute; reflexivity).
  assert (H2 : heap MoreExamples.two_pending !! 1%nat
               = Some (request_of 0 MoreExamples.other_client 22136
                         MoreExamples.example_org))
    by (vm_compute; reflexivity).
  assert (H3 : strlen_array
                 (name (request_of 0 Examples.client 4660 Examples.example_com))
               = Some 11) by (vm_compute; reflexivity).
  assert (H4 : strlen_array
                 (name (request_of 0 MoreExamples.other_client 22136
                          MoreExamples.example_org))
               = Some 11) by (vm_compute; reflexivity).
  assert (H5 : 0 ≤ 14 ∧ 11 + 14 + 2 < 2 ^ 32) by lia.
  assert (H6 : 0 ≤ 8 ∧ 11 + 8 + 2 < 2 ^ 32) by lia.
  split; [done|].
  exact (proj1 (proj2 (proj2
           (@completions_commute (Codec.spec_text_to_dns Examples.ttl)
              0%nat 1%nat _ _ 11 11 MoreExamples.body_a 14
              MoreExamples.body_b 8 MoreExamples.two_pending
              H0 H1 H2 H3 H4 H5 H6)))).
Defined.

(** X14: a context can be completed with a body only once. After the
    callback has run for a context, a second call with a body for the same
    context reads freed memory: nothing is sent, and the call does not
    return normally. *)
Theorem second_completion_is_use_after_free `{codec : TextToDns}
    p req n buf buflen buf' buflen' w :
  heap w !! p = Some req →
  strlen_array (name req) = Some n →
  0 ≤ buflen ∧ n + buflen + 2 < 2 ^ 32 →
  let w1 := fst (https_resp_cb (Some p) (Some buf) buflen w) in
  snd (https_resp_cb (Some p) (Some buf) buflen w) = Ret tt
  ∧ heap w1 !! p = None
  ∧ https_resp_cb (Some p) (Some buf') buflen' w1 = (w1, Undef UseAfterFree).
Proof.
  intros Hp Hn [Hlen Hsize]. cbv zeta.
  rewrite (https_resp_cb_body p req n buf buflen w) by done.
  cbn [fst snd heap]. split; [done|].
  split; [apply lookup_delete_eq|].
  unfold https_resp_cb, bind, ret, load_request. cbn [heap].
  by rewrite lookup_delete_eq.
Qed.

Lemma second_completion_is_use_after_free_example :
  let codec := Codec.spec_text_to_dns Examples.ttl in
  let req := request_of 0 Examples.client 4660 Examples.example_com in
  (heap Examples.accepted_world !! 0%nat = Some req
   ∧ strlen_array (name req) = Some 11
   ∧ (0 ≤ 14 ∧ 11 + 14 + 2 < 2 ^ 32))
  ∧ snd (@https_resp_cb codec (Some 0%nat) (Some MoreExamples.body_b) 8
           (fst (@https_resp_cb codec (Some 0%nat) (Some MoreExamples.body_a)
                   14 Examples.accepted_world)))
    = Undef UseAfterFree.
Proof.
  cbv zeta.
  assert (H1 : heap Examples.accepted_world !! 0%nat
               = Some (request_of 0 Examples.client 4660 Examples.example_com))
    by (vm_compute; reflexivity).
  assert (H2 : strlen_array
                 (name (request_of 0 Examples.client 4660 Examples.example_com))
               = Some 11) by (vm_compute; reflexivity).
  assert (H3 : 0 ≤ 14 ∧ 11 + 14 + 2 < 2 ^ 32) by lia.
  split; [done|].
  exact (f_equal snd
           (proj2 (proj2
              (@second_completion_is_use_after_free
                 (Codec.spec_text_to_dns Examples.ttl) 0%nat _ 11
                 MoreExamples.body_a 14 MoreExamples.body_b 8
                 Examples.accepted_world H1 H2 H3)))).
Defined.

(** ** Many queries *)

Lemma serve_body_world `{codec : TextToDns} app server addr id flags qname
    buf buflen w :
  strlen qname ≤ 253 →
  strlen (curl_escape qname) < NAME_SIZE →
  0 ≤ buflen < 2 ^ 31 →
  ∃ evs,
    serve app server addr id flags qname 1 (Some buf) buflen w
    = ({| trace := trace w ++ evs;
          heap := delete (next_request w) (heap w);
          next_request := S (next_request w) |}, Ret tt).
Proof.
  intros Hlen Hfit Hbuflen.
  destruct (served_with_body app server addr id flags qname buf buflen w)
    as (w1 & url & Hcb & Hresp); try done.
  eexists. unfold serve. rewrite Hcb. cbv beta iota.
  rewrite dns_server_cb_accept in Hcb by (done || lia).
  injection Hcb as <-. rewrite added_app. cbn [fetched]. exact Hresp.
Qed.

Lemma serve_failure_world `{codec : TextToDns} app server addr id flags qname
    buflen w :
  strlen qname ≤ 253 →
  strlen (curl_escape qname) < NAME_SIZE →
  ∃ evs,
    serve app server addr id flags qname 1 None buflen w
    = ({| trace := trace w ++ evs;
          heap := <[next_request w := request_of server addr id qname]> (heap w);
          next_request := S (next_request w) |}, Ret tt).
Proof.
  intros Hlen Hfit. eexists. unfold serve.
  rewrite dns_server_cb_accept by (done || lia). cbv beta iota.
  rewrite added_app. cbn [fetched]. by rewrite https_resp_cb_failure.
Qed.

(** X15: the contexts on the heap are those of the fetches that failed.
    When accepted queries are served one after the other, each to the
    completion of its fetch, every one returns, every query takes a new
    context number, and the heap grows by exactly one context for each fetch
    that failed and by none for each that delivered a body. *)
Theorem live_contexts_are_failed_fetches `{codec : TextToDns} app xs :
  ∀ w,
    Forall servable xs →
    world_ok w →
    let served := serve_all app xs w in
    snd served = Ret tt
    ∧ world_ok (fst served)
    ∧ next_request (fst served) = (next_request w + length xs)%nat
    ∧ size (heap (fst served)) = (size (heap w) + length (failed xs))%nat.
Proof.
  induction xs as [|x xs IH]; intros w Hxs Hok; cbv zeta.
  { cbn. split; [done|]. split; [done|]. split; lia. }
  apply Forall_cons in Hxs as [(Htype & Hlen & Hfit & Hbuflen) Hxs].
  cbn [serve_all]. unfold bind. rewrite Htype. unfold failed.
  destruct (x_buf x) as [buf|] eqn:Hbuf.
  - destruct (serve_body_world app (x_server x) (x_addr x) (x_id x) (x_flags x)
                (x_name x) buf (x_buflen x) w) as [evs ->]; try done.
    rewrite delete_id by (apply Hok; lia).
    rewrite filter_cons_False by (by rewrite Hbuf).
    match goal with |- context [serve_all app xs ?w1] =>
      destruct (IH w1 Hxs) as (Hret & Hok' & Hnext & Hsize) end.
    { intros q Hq. cbn [heap next_request] in *. apply Hok. lia. }
    cbn [heap next_request length] in *.
    split; [done|]. split; [done|]. split; [lia|]. exact Hsize.
  - destruct (serve_failure_world app (x_server x) (x_addr x) (x_id x)
                (x_flags x) (x_name x) (x_buflen x) w) as [evs ->]; try done.
    rewrite filter_cons_True by done.
    match goal with |- context [serve_all app xs ?w1] =>
      destruct (IH w1 Hxs) as (Hret & Hok' & Hnext & Hsize) end.
    { intros q Hq. cbn [heap next_request] in *.
      rewrite lookup_insert_ne by lia. apply Hok. lia. }
    cbn [heap next_request length] in *.
    split; [done|]. split; [done|]. split; [lia|].
    rewrite Hsize, map_size_insert_None by (apply Hok; lia).
    unfold failed. lia.
Qed.

Lemma live_contexts_are_failed_fetches_example :
  (Forall servable MoreExamples.two_exchanges ∧ world_ok world0)
  ∧ size (heap (fst (@serve_all (Codec.spec_text_to_dns Examples.ttl)
                       Examples.app_plain MoreExamples.two_exchanges world0)))
    = (size (heap world0) + length (failed MoreExamples.two_exchanges))%nat.
Proof.
  assert (H1 : Forall servable MoreExamples.two_exchanges).
  { repeat constructor; cbn; try lia; try (vm_compute; discriminate);
      vm_compute; reflexivity. }
  assert (H2 : world_ok world0) by (intros p Hp; reflexivity).
  split; [done|].
  exact (proj2 (proj2 (proj2
           (@live_contexts_are_failed_fetches
              (Codec.spec_text_to_dns Examples.ttl) Examples.app_plain
              MoreExamples.two_exchanges world0 H1 H2)))).
Defined.



